(** * ProMis raster bands: a shallow embedding of [promis/geo/raster_band.py]

    The development follows the Python class [RasterBand]: its constructor,
    the index-to-coordinate conversions, the Gaussian-mixture rasteriser, the
    quadtree split and the two exporters.

    Conventions of the embedding.
    - A Python [float] is read as the exact rational it stands for, [Qc]
      (canonical fractions, so that Leibniz equality is equality of values,
      as [==] and hashing of floats are in Python), and an operation on
      floats as the exact operation: the statements over [Qc] say which
      formula the code evaluates, for which cells, in which order and with
      which sign.  What depends on the rounding of the doubles is not
      stated over [Qc]: the module [Binary64] at the end embeds the
      constructor, [split] and [to_image] once more on the binary64 numbers
      themselves, and evaluates them.
    - A two-dimensional [numpy.ndarray] is a list of rows, the first axis
      being the outer list.
    - A Python [dict] is a [gmap].
    - A Python exception is a value of [exn] carried by the [result] monad.
    - The file system is a map from paths to texts.  Opening a file always
      succeeds here; the errors of the operating system ([OSError]) are not
      modelled, and the statements on files are about calls that return.

    [from_map] draws the map with matplotlib and reads the picture back; it
    ends in a call of the constructor and is not embedded otherwise. *)

From Stdlib Require Import Floats.
From Stdlib Require Import QArith Qcanon Qround Qabs Lqa.
From stdpp Require Import gmap strings list fin_maps numbers pretty.

Local Open Scope Qc_scope.

(** ** Numbers *)

(** An integer literal or [int] value used in float arithmetic. *)
Definition qz (n : Z) : Qc := Qc_of_Z n.
Definition qn (n : nat) : Qc := qz (Z.of_nat n).

(** ** Exceptions *)

Inductive exn : Set :=
  | ZeroDivisionError
  | KeyError
  | IndexError
  | ValueError.

Inductive result (A : Type) : Type :=
  | Ok (a : A)
  | Raise (e : exn).
Arguments Ok {A} a.
Arguments Raise {A} e.

Global Instance result_ret : MRet result := λ A a, Ok a.
Global Instance result_bind : MBind result := λ A B f m,
  match m with
  | Ok a => f a
  | Raise e => Raise e
  end.

Definition raises {A} (m : result A) : Prop := ∃ e, m = Raise e.

(** A dictionary access [d[k]]: a missing key raises [KeyError]. *)
Definition dict_get `{Countable K} {V} (d : gmap K V) (k : K) : result V :=
  match d !! k with
  | Some v => Ok v
  | None => Raise KeyError
  end.

(** [a / n] for a float [a] and an [int] [n]: the exact quotient, where
    the code stores the double nearest to it. *)
Definition py_div (a : Qc) (n : nat) : result Qc :=
  if decide (n = 0%nat) then Raise ZeroDivisionError else Ok (a / qn n).

(** [x % 2] for a float [x]: the remainder takes the sign of the divisor. *)
Definition py_mod2 (x : Qc) : Qc :=
  x - qz 2 * qz (Qfloor (x / qz 2)).

(** ** Locations *)

Record CartesianLocation : Set := mkCartesian { east : Qc; north : Qc }.
Record PolarLocation : Set := mkPolar { latitude : Qc; longitude : Qc }.

(** ** Arrays *)

(** A Python [float] matrix; an abbreviation, so that the list lemmas apply
    as they are. *)
Abbreviation ndarray := (list (list Qc)).

(** [a.shape[0]] and [a.shape[1]].  An array without rows has no row to
    measure, and its second extent reads as 0 here.  No band holds such an
    array: the constructor divides by the first extent before it looks at
    the second, and fails. *)
Definition shape0 (a : ndarray) : nat := length a.
Definition shape1 (a : ndarray) : nat :=
  match a with
  | [] => 0
  | r :: _ => length r
  end.

(** numpy arrays are rectangular. *)
Definition rectangular (W H : nat) (a : ndarray) : Prop :=
  length a = W ∧ Forall (λ r, length r = H) a.

(** [numpy.zeros((W, H))] *)
Definition zeros (resolution : nat * nat) : ndarray :=
  replicate resolution.1 (replicate resolution.2 0).

(** [a[i, j]] *)
Definition getitem (a : ndarray) (index : nat * nat) : result Qc :=
  match a !! index.1 ≫= (.!! index.2) with
  | Some v => Ok v
  | None => Raise IndexError
  end.

(** [a[i, j] = v] *)
Definition setitem (a : ndarray) (index : nat * nat) (v : Qc) : result ndarray :=
  match a !! index.1 with
  | Some row =>
      if decide (index.2 < length row)%nat
      then Ok (<[index.1 := <[index.2 := v]> row]> a)
      else Raise IndexError
  | None => Raise IndexError
  end.

(** The value of an in-range cell, 0 outside (used in statements only). *)
Definition cell (a : ndarray) (i j : nat) : Qc :=
  default 0 (a !! i ≫= (.!! j)).

(** Number of cells, [a.size]. *)
Definition size_of (a : ndarray) : nat := length (concat a).

(** [range(n)] and [itertools.product(xs, ys)] *)
Definition range (n : nat) : list nat := seq 0 n.
Definition product (xs ys : list nat) : list (nat * nat) :=
  x ← xs; (x,.) <$> ys.

(** [{index: f(index) for index in indices}] *)
Definition dict_comprehension {V} (f : nat * nat → V) (indices : list (nat * nat))
  : gmap (nat * nat) V :=
  list_to_map ((λ index, (index, f index)) <$> indices).

(** ** The raster band *)

Record RasterBand : Type := mkRasterBand {
  data : ndarray;
  origin : PolarLocation;
  width : Qc;
  height : Qc;
  pixel_width : Qc;
  pixel_height : Qc;
  center_x : Qc;
  center_y : Qc;
  cartesian_locations : gmap (nat * nat) CartesianLocation;
  polar_locations : gmap (nat * nat) PolarLocation
}.

(** [raster_band.data = data] *)
Definition set_data (self : RasterBand) (data : ndarray) : RasterBand :=
  mkRasterBand data (origin self) (width self) (height self)
    (pixel_width self) (pixel_height self) (center_x self) (center_y self)
    (cartesian_locations self) (polar_locations self).

(** What [split] returns: the band itself, or the nested list of four. *)
Inductive split_result : Type :=
  | Unsplit (self : RasterBand)
  | Quadrants (quadrants : list (list RasterBand)).

(** A component of a [GaussianMixture]: [gaussian.weight] and
    [gaussian.cdf(point)].  The mixture is the ordered collection of its
    components. *)
Record Gaussian : Type := mkGaussian { weight : Qc; cdf : Qc * Qc → Qc }.
Abbreviation GaussianMixture := (list Gaussian).

(** [for x in xs: state = body(state, x)], stopping at the first exception. *)
Fixpoint for_each {S A} (body : S → A → result S) (xs : list A) (state : S)
  : result S :=
  match xs with
  | [] => Ok state
  | x :: xs => state ← body state x; for_each body xs state
  end.

(** [enumerate(xs)] *)
Definition enumerate {A} (xs : list A) : list (nat * A) := imap (λ i x, (i, x)) xs.

(** ** Scaling and images *)

Definition Qc_min (x y : Qc) : Qc := if decide (x ≤ y) then x else y.
Definition Qc_max (x y : Qc) : Qc := if decide (x ≤ y) then y else x.

(** Column [j] of an array, [a[:, j]]. *)
Definition column (a : ndarray) (j : nat) : list Qc :=
  (λ row : list Qc, default 0 (row !! j)) <$> a.

(** [numpy.min] and [numpy.max] of a non-empty vector. *)
Definition list_min (l : list Qc) : Qc := foldr Qc_min (default 0 (head l)) l.
Definition list_max (l : list Qc) : Qc := foldr Qc_max (default 0 (head l)) l.

(** [numpy.finfo(numpy.float64).eps], the machine epsilon 2^-52. *)
Definition eps : Qc := Q2Qc (1 # 2 ^ 52).

(** scikit-learn's [_handle_zeros_in_scale]: a feature whose spread is below
    ten machine epsilons, [scale < 10 * eps], is scaled by 1. *)
Definition handle_zeros_in_scale (r : Qc) : Qc :=
  if decide (r < qz 10 * eps) then 1 else r.

(** [MinMaxScaler(feature_range=(lo, hi)).fit_transform(X)], as scikit-learn
    documents and implements it: [X] has one sample per row and one feature
    per column; [data_min_] and [data_max_] are taken over axis 0, that is
    per column; [scale_ = (hi - lo) / data_range_],
    [min_ = lo - data_min_ * scale_] and the result is [X * scale_ + min_],
    broadcast along the rows.  An array without a sample or without a
    feature is rejected with [ValueError].  The arithmetic is exact; the
    library rounds each operation to a double ([Binary64] below). *)
Definition MinMaxScaler_fit_transform (feature_range : Qc * Qc) (X : ndarray)
  : result ndarray :=
  if decide (shape0 X = 0 ∨ shape1 X = 0)%nat then Raise ValueError
  else
    let features := range (shape1 X) in
    let data_min := (λ j, list_min (column X j)) <$> features in
    let data_max := (λ j, list_max (column X j)) <$> features in
    let data_range := zip_with Qcminus data_max data_min in
    let scale_ :=
      (λ r, (feature_range.2 - feature_range.1) / handle_zeros_in_scale r)
        <$> data_range in
    let min_ := zip_with (λ m s, feature_range.1 - m * s) data_min scale_ in
    Ok ((λ row : list Qc, zip_with Qcplus (zip_with Qcmult row scale_) min_) <$> X).

(** [a.transpose()] *)
Definition transpose (a : ndarray) : ndarray := column a <$> range (shape1 a).

(** [numpy.uint8(x)]: the fraction is dropped (towards zero) and the integer
    is kept modulo 256. *)
Definition uint8 (x : Qc) : Z :=
  (Z.quot (Qnum (this x)) (Zpos (Qden (this x)))) mod 256.

(** A single-channel 8-bit image ([PIL] mode [L]), as its rows of pixels. *)
Abbreviation Image := (list (list Z)).

(** [Image.fromarray(a)] for an array of [uint8]. *)
Definition fromarray (a : list (list Z)) : Image := a.

(** [RasterBand.to_image] *)
Definition to_image (self : RasterBand) : result Image :=
  image_data ← MinMaxScaler_fit_transform (0, qz 255) (data self);
  Ok (fromarray ((λ row : list Qc, uint8 <$> row) <$> transpose image_data)).

(** ** Text *)

Definition newline : string := String (Ascii.ascii_of_nat 10) "".

(** Rounding to the nearest integer, ties to even. *)
Definition round_half_even (x : Q) : Z :=
  let n := Qnum x in
  let d := Zpos (Qden x) in
  let q := (n / d)%Z in
  let r := (n mod d)%Z in
  if (2 * r <? d)%Z then q
  else if (d <? 2 * r)%Z then (q + 1)%Z
  else if Z.even q then q else (q + 1)%Z.

Definition digit_char (d : Z) : Ascii.ascii := Ascii.ascii_of_nat (48 + Z.to_nat d).

(** The last [k] decimal digits of [m], with leading zeros. *)
Fixpoint fixed_digits (k : nat) (m : Z) : string :=
  match k with
  | O => ""
  | S k => fixed_digits k (m / 10) +:+ String (digit_char (m mod 10)) ""
  end.

(** [f"{x:.{precision}f}"]: fixed-point notation with [precision] digits
    after the point, correctly rounded. *)
Definition format_f (precision : nat) (x : Qc) : string :=
  let scale := (10 ^ Z.of_nat precision)%Z in
  let n := round_half_even (Qabs (this x) * inject_Z scale)%Q in
  (if decide (x < 0) then "-" else "")
  +:+ pretty (n / scale)%Z +:+ "." +:+ fixed_digits precision (n mod scale).

(** The lines of a text, cut at its newline characters and without them,
    as [text.splitlines()] gives them for a text whose only line boundaries
    are newlines. *)
Fixpoint split_lines (current text : string) : list string :=
  match text with
  | EmptyString => if decide (current = "") then [] else [current]
  | String c rest =>
      if decide (c = Ascii.ascii_of_nat 10)
      then current :: split_lines "" rest
      else split_lines (current +:+ String c "") rest
  end.
Definition splitlines (text : string) : list string := split_lines "" text.

(** The files of the file system, by path. *)
Abbreviation FileSystem := (gmap string string).

(** [open(path, mode)] for the modes [w] (truncate) and [a] (append): the
    text the handle starts from.  The call always succeeds here; a path that
    cannot be opened, at which the code raises [OSError], is not modelled. *)
Definition open (fs : FileSystem) (path : string) (append : bool) : string :=
  if append then default "" (fs !! path) else "".

Section RasterBand.

(** [CartesianLocation.to_polar(origin)] lives in [promis.geo], outside the
    files at hand; it is a parameter of the development. *)
Variable to_polar : CartesianLocation → PolarLocation → PolarLocation.

(** [RasterBand.index_to_cartesian] *)
Definition index_to_cartesian (self : RasterBand) (index : nat * nat)
  : CartesianLocation :=
  {| east := pixel_width self / qz 2 + qn index.1 * pixel_width self - center_x self;
     north := - (pixel_height self / qz 2 + qn index.2 * pixel_height self)
              + center_y self |}.

(** [RasterBand.index_to_polar] *)
Definition index_to_polar (self : RasterBand) (index : nat * nat) : PolarLocation :=
  to_polar (index_to_cartesian self index) (origin self).

(** [RasterBand.__init__].  The attributes are assigned in the order of the
    source; the two dictionaries are filled last, by calls to the methods
    above, which read the geometry attributes only. *)
Definition __init__ (data : ndarray) (origin : PolarLocation) (width height : Qc)
  : result RasterBand :=
  pixel_width ← py_div width (shape0 data);
  pixel_height ← py_div height (shape1 data);
  let center_x := width / qz 2 in
  let center_y := height / qz 2 in
  let indices := product (range (shape0 data)) (range (shape1 data)) in
  let self := mkRasterBand data origin width height pixel_width pixel_height
                center_x center_y ∅ ∅ in
  let self := mkRasterBand data origin width height pixel_width pixel_height
                center_x center_y
                (dict_comprehension (index_to_cartesian self) indices) ∅ in
  let self := mkRasterBand data origin width height pixel_width pixel_height
                center_x center_y
                (cartesian_locations self)
                (dict_comprehension (index_to_polar self) indices) in
  Ok self.

(** *** Gaussian mixtures *)

(** [0.5 * vstack([x, y])], [location.to_numpy()] and the sum of two column
    vectors; [tuple(v.T[0])] turns such a vector into a pair, which is what
    it is here from the start. *)
Definition vstack (x y : Qc) : Qc * Qc := (x, y).
Definition scale (c : Qc) (v : Qc * Qc) : Qc * Qc := (c * v.1, c * v.2).
Definition vadd (u v : Qc * Qc) : Qc * Qc := (u.1 + v.1, u.2 + v.2).
Definition to_numpy (location : CartesianLocation) : Qc * Qc :=
  vstack (east location) (north location).
Definition half : Qc := Q2Qc (1 # 2).

(** [if key not in cdf_raster: cdf_raster[key] = gaussian.cdf(key)].  The
    keys are exact here, so that the cells around a corner find its key in
    the cache; computed in doubles, the keys of one corner can differ in
    their last digit from cell to cell, and the cache then holds an entry
    for each.  Either way a key is stored with the distribution function at
    that key, which is all the statements below rely on. *)
Definition cache_cdf (gaussian : Gaussian) (cdf_raster : gmap (Qc * Qc) Qc)
    (key : Qc * Qc) : gmap (Qc * Qc) Qc :=
  match cdf_raster !! key with
  | None => <[key := cdf gaussian key]> cdf_raster
  | Some _ => cdf_raster
  end.

(** [probabilities[i][index] = v] on the stack of per-component rasters. *)
Definition setitem3 (probabilities : list ndarray) (i : nat) (index : nat * nat)
    (v : Qc) : result (list ndarray) :=
  match probabilities !! i with
  | Some raster => raster' ← setitem raster index v; Ok (<[i := raster']> probabilities)
  | None => Raise IndexError
  end.

(** [numpy.sum(probabilities, axis=0)] for a stack of rasters of the given
    resolution: the exact sums, where numpy adds the doubles one component
    after the other and rounds each sum. *)
Definition add_arrays (a b : ndarray) : ndarray := zip_with (zip_with Qcplus) a b.
Definition sum_axis0 (resolution : nat * nat) (probabilities : list ndarray) : ndarray :=
  foldl add_arrays (zeros resolution) probabilities.

(** The body of the loop over the cells, for component [i]; the state is
    the cache of the component and the stack of rasters. *)
Definition rasterize_cell (raster_band : RasterBand)
    (top_right_vector top_left_vector bottom_right_vector bottom_left_vector : Qc * Qc)
    (i : nat) (gaussian : Gaussian)
    (state : gmap (Qc * Qc) Qc * list ndarray) (index : nat * nat)
  : result (gmap (Qc * Qc) Qc * list ndarray) :=
  let '(cdf_raster, probabilities) := state in
  cartesian ← dict_get (cartesian_locations raster_band) index;
  let location := to_numpy cartesian in
  let top_right := vadd location top_right_vector in
  let top_left := vadd location top_left_vector in
  let bottom_right := vadd location bottom_right_vector in
  let bottom_left := vadd location bottom_left_vector in
  let cdf_raster := cache_cdf gaussian cdf_raster top_right in
  let cdf_raster := cache_cdf gaussian cdf_raster top_left in
  let cdf_raster := cache_cdf gaussian cdf_raster bottom_right in
  let cdf_raster := cache_cdf gaussian cdf_raster bottom_left in
  c_tr ← dict_get cdf_raster top_right;
  c_tl ← dict_get cdf_raster top_left;
  c_br ← dict_get cdf_raster bottom_right;
  c_bl ← dict_get cdf_raster bottom_left;
  probabilities ← setitem3 probabilities i index
                    (weight gaussian * (c_tr - c_tl - c_br + c_bl));
  Ok (cdf_raster, probabilities).

(** The body of the loop over the components: a fresh cache, then all the
    cells. *)
Definition rasterize_component (raster_band : RasterBand)
    (top_right_vector top_left_vector bottom_right_vector bottom_left_vector : Qc * Qc)
    (resolution : nat * nat)
    (probabilities : list ndarray) (entry : nat * Gaussian)
  : result (list ndarray) :=
  let '(i, gaussian) := entry in
  state ← for_each
             (rasterize_cell raster_band top_right_vector top_left_vector
                bottom_right_vector bottom_left_vector i gaussian)
             (product (range resolution.1) (range resolution.2))
             (∅, probabilities);
  Ok state.2.

(** [RasterBand.from_gaussian_mixture].  The resolution is a pair of
    naturals: a negative entry, at which [numpy.zeros] raises [ValueError]
    before anything else is done, is not a value of the type. *)
Definition from_gaussian_mixture (gaussian_mixture : GaussianMixture)
    (origin : PolarLocation) (width height : Qc) (resolution : nat * nat)
  : result RasterBand :=
  raster_band ← __init__ (zeros resolution) origin width height;
  let top_right_vector :=
    scale half (vstack (pixel_width raster_band) (pixel_height raster_band)) in
  let top_left_vector :=
    scale half (vstack (- pixel_width raster_band) (pixel_height raster_band)) in
  let bottom_right_vector :=
    scale half (vstack (pixel_width raster_band) (- pixel_height raster_band)) in
  let bottom_left_vector :=
    scale half (vstack (- pixel_width raster_band) (- pixel_height raster_band)) in
  let probabilities := replicate (length gaussian_mixture) (zeros resolution) in
  probabilities ← for_each
                    (rasterize_component raster_band top_right_vector top_left_vector
                       bottom_right_vector bottom_left_vector resolution)
                    (enumerate gaussian_mixture)
                    probabilities;
  Ok (set_data raster_band (sum_axis0 resolution probabilities)).

(** *** Splitting *)

(** [self.data[x0:x1, y0:y1]], with [None] for an omitted bound. *)
Definition slice {A} (lo hi : option nat) (l : list A) : list A :=
  let l := match hi with Some n => take n l | None => l end in
  match lo with Some n => drop n l | None => l end.
Definition slice2 (a : ndarray) (x0 x1 y0 y1 : option nat) : ndarray :=
  slice y0 y1 <$> slice x0 x1 a.

(** [RasterBand.split] *)
Definition split (self : RasterBand) : result split_result :=
  if decide (shape0 (data self) = 1 ∨ shape1 (data self) = 1)%nat
  then Ok (Unsplit self)
  else
    let data_split_x := (shape0 (data self) / 2)%nat in
    let data_split_y := (shape1 (data self) / 2)%nat in
    let '(left_width, right_width, origin_west, origin_east) :=
      if decide (py_mod2 (width self) ≠ 0)
      then ((width self - pixel_width self) / qz 2,
            (width self + pixel_width self) / qz 2,
            - (width self + pixel_width self) / qz 4,
            (width self - pixel_width self) / qz 4)
      else (width self / qz 2, width self / qz 2,
            - (width self / qz 4), width self / qz 4) in
    let '(top_height, bottom_height, origin_north, origin_south) :=
      if decide (py_mod2 (height self) ≠ 0)
      then ((height self - pixel_height self) / qz 2,
            (height self + pixel_height self) / qz 2,
            - (height self - pixel_height self) / qz 4,
            (height self + pixel_height self) / qz 4)
      else (height self / qz 2, height self / qz 2,
            - (height self / qz 4), height self / qz 4) in
    q00 ← __init__ (slice2 (data self) None (Some data_split_x) None (Some data_split_y))
             (to_polar (mkCartesian origin_west origin_south) (origin self))
             left_width top_height;
    q01 ← __init__ (slice2 (data self) None (Some data_split_x) (Some data_split_y) None)
             (to_polar (mkCartesian origin_west origin_north) (origin self))
             left_width bottom_height;
    q10 ← __init__ (slice2 (data self) (Some data_split_x) None None (Some data_split_y))
             (to_polar (mkCartesian origin_east origin_south) (origin self))
             right_width top_height;
    q11 ← __init__ (slice2 (data self) (Some data_split_x) None (Some data_split_y) None)
             (to_polar (mkCartesian origin_east origin_north) (origin self))
             right_width bottom_height;
    Ok (Quadrants [[q00; q01]; [q10; q11]]).

(** *** Export as comma separated values *)

(** [f"{x}"] for a float [x] (the shortest decimal that reads back as [x])
    is a matter of binary floating point; it is a parameter. *)
Variable float_str : Qc → string.

(** The body of the loop of [save_as_csv] over the cells. *)
Definition write_row (self : RasterBand) (time : option string)
    (csv_file : string) (index : nat * nat) : result string :=
  let polar_location := index_to_polar self index in
  value ← getitem (data self) index;
  let csv_file :=
    csv_file +:+ float_str (latitude polar_location) +:+ ", "
             +:+ float_str (longitude polar_location) +:+ ", "
             +:+ format_f 20 value in
  let csv_file :=
    match time with
    | Some time => csv_file +:+ ", " +:+ time +:+ newline
    | None => csv_file
    end in
  Ok (csv_file +:+ newline).

(** [RasterBand.save_as_csv]; the file is closed, and so stored, when the
    [with] block is left normally. *)
Definition save_as_csv (self : RasterBand) (path : string) (time : option string)
    (append : bool) (fs : FileSystem) : result FileSystem :=
  let csv_file := open fs path append in
  let header := "latitude, longitude, value" in
  let header :=
    match time with
    | Some _ => header +:+ ", datetime"
    | None => header
    end in
  let csv_file := if append then csv_file else csv_file +:+ header +:+ newline in
  csv_file ← for_each (write_row self time)
                (product (range (shape0 (data self))) (range (shape1 (data self))))
                csv_file;
  Ok (<[path := csv_file]> fs).

End RasterBand.

(** A flat conversion, one degree per metre, on which the operations can be
    evaluated; it stands for no geodesy. *)
Definition planar_to_polar (location : CartesianLocation) (origin : PolarLocation)
  : PolarLocation :=
  {| latitude := latitude origin + north location;
     longitude := longitude origin + east location |}.

(** The numerator and denominator of a float, as text. *)
Definition fraction_str (x : Qc) : string :=
  pretty (Qnum (this x)) +:+ "/" +:+ pretty (Zpos (Qden (this x))).

(** * Reference definitions *)

(** The mass of one component on the cell at [index], by inclusion and
    exclusion over the four corners of the cell, each corner being the
    centre of the cell moved by half a pixel along both axes, and the
    distribution function being evaluated at every corner anew. *)
Definition cell_mass (self : RasterBand) (gaussian : Gaussian) (index : nat * nat)
  : Qc :=
  let center := index_to_cartesian self index in
  let dx := pixel_width self / qz 2 in
  let dy := pixel_height self / qz 2 in
  weight gaussian
  * (cdf gaussian (east center + dx, north center + dy)
     - cdf gaussian (east center - dx, north center + dy)
     - cdf gaussian (east center + dx, north center - dy)
     + cdf gaussian (east center - dx, north center - dy)).

(** The sum of [cell_mass] over the components of a mixture. *)
Definition mixture_mass (self : RasterBand) (gaussian_mixture : GaussianMixture)
    (index : nat * nat) : Qc :=
  foldr (λ gaussian acc, cell_mass self gaussian index + acc) 0 gaussian_mixture.

(** The pixel of the cell (i, j) when the grid is normalised as a whole:
    with the minimum and the maximum taken over all the cells. *)
Definition raster_min (a : ndarray) : Qc := list_min (concat a).
Definition raster_max (a : ndarray) : Qc := list_max (concat a).
Definition raster_normalized (a : ndarray) (i j : nat) : Z :=
  uint8 ((cell a i j - raster_min a) / (raster_max a - raster_min a) * qz 255).

(** * Properties *)

(** ** Rational arithmetic *)

Lemma Qc_eq_Qeq (x y : Qc) : x = y ↔ (this x == this y)%Q.
Proof. split; [by intros -> | apply Qc_is_canon]. Qed.

Ltac Qc_constants :=
  repeat match goal with
  | |- context [Qinv (?n # ?d)] =>
      let v := eval cbv in (Qinv (n # d)) in change (Qinv (n # d)) with v
  | H : context [Qinv (?n # ?d)] |- _ =>
      let v := eval cbv in (Qinv (n # d)) in change (Qinv (n # d)) with v in H
  end.

(** Goals and hypotheses over [Qc] restated over [Q], where [lra] applies. *)
Ltac Qc_to_Q :=
  repeat match goal with
  | H : @eq Qc _ _ |- _ => apply Qc_eq_Qeq in H
  | H : ¬ @eq Qc _ _ |- _ => rewrite Qc_eq_Qeq in H
  | |- @eq Qc _ _ => apply Qc_is_canon
  | |- ¬ @eq Qc _ _ => rewrite Qc_eq_Qeq
  end;
  unfold Qcle, Qclt, Qcdiv, Qcminus, half, qz, Qc_of_Z in *;
  cbn [this Qcplus Qcmult Qcopp Qcinv Q2Qc] in *;
  rewrite ?Qred_correct in *;
  unfold inject_Z in *;
  Qc_constants.

Tactic Notation "Qc_lra" := Qc_to_Q; lra.

Lemma qn_nonzero (n : nat) : n ≠ 0%nat → qn n ≠ 0.
Proof.
  intros Hn E. apply Qc_eq_Qeq in E. unfold Qeq in E. simpl in E. lia.
Qed.

Lemma qn_lt (m n : nat) : (m < n)%nat → qn m < qn n.
Proof. intros Hmn. unfold Qclt, Qlt. simpl. lia. Qed.

Lemma qn_pos (n : nat) : (0 < n)%nat → 0 < qn n.
Proof. apply (qn_lt 0). Qed.

Lemma pixel_times_count (w : Qc) (n : nat) : n ≠ 0%nat → w / qn n * qn n = w.
Proof. intros Hn. field. by apply qn_nonzero. Qed.

Lemma pixel_positive (w : Qc) (n : nat) : (0 < n)%nat → 0 < w → 0 < w / qn n.
Proof.
  intros Hn Hw. unfold Qcdiv. apply Qcmult_pos_pos; [done |].
  apply Qcinv_pos, qn_pos, Hn.
Qed.

(** ** Loops, indices and dictionaries *)

Lemma elem_of_product (i j W H : nat) :
  (i, j) ∈ product (range W) (range H) ↔ (i < W ∧ j < H)%nat.
Proof.
  unfold product, range. rewrite list_elem_of_bind. split.
  - intros (x & Hin & Hx). apply list_elem_of_fmap in Hin as (y & [= -> ->] & Hy).
    apply elem_of_seq in Hx, Hy. lia.
  - intros [Hi Hj]. exists i. split.
    + apply list_elem_of_fmap. exists j. split; [done |]. apply elem_of_seq. lia.
    + apply elem_of_seq. lia.
Qed.

Lemma lookup_dict_comprehension {V} (f : nat * nat → V) indices index :
  dict_comprehension f indices !! index
  = if decide (index ∈ indices) then Some (f index) else None.
Proof.
  unfold dict_comprehension. induction indices as [| k ks IH].
  - rewrite fmap_nil, list_to_map_nil, lookup_empty.
    case_decide as Hin; [by apply elem_of_nil in Hin | done].
  - rewrite fmap_cons, list_to_map_cons; cbn [fst snd].
    destruct (decide (k = index)) as [-> | Hne].
    + clear IH. rewrite lookup_insert_eq. case_decide as Hin; [done |].
      destruct Hin. by left.
    + rewrite lookup_insert_ne by done. rewrite IH. clear IH.
      destruct (decide (index ∈ ks)) as [Hin | Hin].
      * rewrite decide_True; [done | by right].
      * rewrite decide_False; [done |]. rewrite elem_of_cons.
        intros [Heq | Hks]; [by symmetry in Heq | done].
Qed.

(** ** Arrays *)

Lemma rectangular_zeros W H : rectangular W H (zeros (W, H)).
Proof.
  unfold rectangular, zeros; simpl. split; [apply length_replicate |].
  apply Forall_replicate, length_replicate.
Qed.

Lemma rectangular_shape1 W H a : (0 < W)%nat → rectangular W H a → shape1 a = H.
Proof.
  intros HW [Hlen Hrows]. destruct a as [| r a]; simpl in *; [lia |].
  by inversion Hrows.
Qed.

Lemma cell_zeros W H i j : cell (zeros (W, H)) i j = 0.
Proof.
  unfold cell, zeros; cbn [fst snd].
  destruct (replicate W (replicate H (Q2Qc 0)) !! i) as [row |] eqn:Hrow;
    [| reflexivity].
  apply lookup_replicate in Hrow as [-> _]. cbn [mbind option_bind].
  destruct (replicate H (Q2Qc 0) !! j) as [v |] eqn:Hv; [| reflexivity].
  by apply lookup_replicate in Hv as [-> _].
Qed.

Lemma rectangular_lookup W H a i :
  rectangular W H a → (i < W)%nat → ∃ row, a !! i = Some row ∧ length row = H.
Proof.
  intros [Hlen Hrows] Hi.
  destruct (lookup_lt_is_Some_2 a i) as [row Hrow]; [lia |].
  exists row. split; [done |].
  by apply (Forall_lookup_1 _ _ _ _ Hrows Hrow).
Qed.

Lemma cell_lookup (a : ndarray) i j row v :
  a !! i = Some row → row !! j = Some v → cell a i j = v.
Proof. intros Hrow Hv. unfold cell. rewrite Hrow. cbn. by rewrite Hv. Qed.

Lemma cell_in_range W H (a : ndarray) i j :
  rectangular W H a → (i < W)%nat → (j < H)%nat →
  ∃ row, a !! i = Some row ∧ row !! j = Some (cell a i j).
Proof.
  intros Hrect Hi Hj.
  destruct (rectangular_lookup W H a i Hrect Hi) as (row & Hrow & Hlen).
  destruct (lookup_lt_is_Some_2 row j) as [v Hv]; [lia |].
  exists row. split; [done |]. by rewrite (cell_lookup a i j row v).
Qed.

Lemma setitem_ok W H (a : ndarray) i j v :
  rectangular W H a → (i < W)%nat → (j < H)%nat →
  ∃ a', setitem a (i, j) v = Ok a' ∧ rectangular W H a'
    ∧ ∀ x y, cell a' x y = if decide ((x, y) = (i, j)) then v else cell a x y.
Proof.
  intros Hrect Hi Hj.
  destruct (rectangular_lookup W H a i Hrect Hi) as (row & Hrow & Hlen).
  destruct Hrect as [Hlen_a Hrows].
  exists (<[i := <[j := v]> row]> a). unfold setitem; cbn [fst snd].
  rewrite Hrow, decide_True by lia. split; [done |]. split.
  - split; [by rewrite length_insert |].
    apply Forall_insert; [done |]. by rewrite length_insert.
  - intros x y. unfold cell.
    destruct (decide (x = i)) as [-> | Hx].
    + rewrite list_lookup_insert_eq by lia. rewrite Hrow. cbn.
      destruct (decide (y = j)) as [-> | Hy].
      * rewrite list_lookup_insert_eq by lia. by rewrite decide_True.
      * rewrite list_lookup_insert_ne by done.
        rewrite decide_False; [done | congruence].
    + rewrite list_lookup_insert_ne by done.
      rewrite decide_False; [done | congruence].
Qed.

Lemma rectangular_add W H (a b : ndarray) :
  rectangular W H a → rectangular W H b → rectangular W H (add_arrays a b).
Proof.
  intros [Ha Hra] [Hb Hrb]. unfold add_arrays. split.
  - rewrite length_zip_with. lia.
  - apply Forall_lookup. intros i row Hrow.
    apply lookup_zip_with_Some in Hrow as (ra & rb & -> & Hia & Hib).
    rewrite length_zip_with.
    rewrite (Forall_lookup_1 _ _ _ _ Hra Hia), (Forall_lookup_1 _ _ _ _ Hrb Hib).
    lia.
Qed.

Lemma cell_add_arrays W H (a b : ndarray) i j :
  rectangular W H a → rectangular W H b → (i < W)%nat → (j < H)%nat →
  cell (add_arrays a b) i j = cell a i j + cell b i j.
Proof.
  intros Ha Hb Hi Hj.
  destruct (cell_in_range W H a i j Ha Hi Hj) as (ra & Hra & Hva).
  destruct (cell_in_range W H b i j Hb Hi Hj) as (rb & Hrb & Hvb).
  apply (cell_lookup _ i j (zip_with Qcplus ra rb)).
  - unfold add_arrays. rewrite lookup_zip_with, Hra, Hrb. done.
  - rewrite lookup_zip_with, Hva, Hvb. done.
Qed.

(** ** The cache of distribution values *)

(** Every value in the cache is the distribution function at its key. *)
Definition cache_sound (gaussian : Gaussian) (cdf_raster : gmap (Qc * Qc) Qc) : Prop :=
  ∀ key value, cdf_raster !! key = Some value → value = cdf gaussian key.

Lemma cache_sound_empty gaussian : cache_sound gaussian ∅.
Proof. intros key value Hkey. by rewrite lookup_empty in Hkey. Qed.

Lemma cache_cdf_sound gaussian cdf_raster key :
  cache_sound gaussian cdf_raster →
  cache_sound gaussian (cache_cdf gaussian cdf_raster key).
Proof.
  intros Hsound. unfold cache_cdf.
  destruct (cdf_raster !! key) as [hit |] eqn:Hkey; [done |].
  intros key' value. rewrite lookup_insert.
  case_decide as Heq; [| apply Hsound]. subst key'. by intros [= <-].
Qed.

Lemma cache_cdf_lookup gaussian cdf_raster key :
  cache_sound gaussian cdf_raster →
  cache_cdf gaussian cdf_raster key !! key = Some (cdf gaussian key).
Proof.
  intros Hsound. unfold cache_cdf.
  destruct (cdf_raster !! key) as [hit |] eqn:Hkey.
  - by rewrite Hkey, (Hsound key hit Hkey).
  - apply lookup_insert_eq.
Qed.

Lemma cache_cdf_keeps gaussian cdf_raster key key' value :
  cdf_raster !! key' = Some value →
  cache_cdf gaussian cdf_raster key !! key' = Some value.
Proof.
  intros Hkey'. unfold cache_cdf.
  destruct (cdf_raster !! key) as [hit |] eqn:Hkey; [done |].
  rewrite lookup_insert_ne; [done | congruence].
Qed.

(** ** The loops of the mixture rasteriser *)

Lemma corner_plus (a x : Qc) : a + half * x = a + x / qz 2.
Proof. Qc_lra. Qed.

Lemma corner_minus (a x : Qc) : a + half * - x = a - x / qz 2.
Proof. Qc_lra. Qed.

(** The loop bodies, with the corner vectors [from_gaussian_mixture] passes. *)
Definition cell_body (raster_band : RasterBand) :=
  rasterize_cell raster_band
    (scale half (vstack (pixel_width raster_band) (pixel_height raster_band)))
    (scale half (vstack (- pixel_width raster_band) (pixel_height raster_band)))
    (scale half (vstack (pixel_width raster_band) (- pixel_height raster_band)))
    (scale half (vstack (- pixel_width raster_band) (- pixel_height raster_band))).

Definition component_body (raster_band : RasterBand) :=
  rasterize_component raster_band
    (scale half (vstack (pixel_width raster_band) (pixel_height raster_band)))
    (scale half (vstack (- pixel_width raster_band) (pixel_height raster_band)))
    (scale half (vstack (pixel_width raster_band) (- pixel_height raster_band)))
    (scale half (vstack (- pixel_width raster_band) (- pixel_height raster_band))).

(** One cell: the cache stays sound, and the raster of the component
    receives the mass of the cell, computed at the corners directly. *)
Lemma cell_body_ok W H raster_band i gaussian cdf_raster
    (probabilities : list ndarray) raster index :
  cartesian_locations raster_band !! index
    = Some (index_to_cartesian raster_band index) →
  cache_sound gaussian cdf_raster →
  probabilities !! i = Some raster →
  rectangular W H raster →
  (index.1 < W)%nat → (index.2 < H)%nat →
  ∃ cdf_raster' raster',
    cell_body raster_band i gaussian (cdf_raster, probabilities) index
      = Ok (cdf_raster', <[i := raster']> probabilities)
    ∧ cache_sound gaussian cdf_raster'
    ∧ rectangular W H raster'
    ∧ ∀ x y, cell raster' x y
             = if decide ((x, y) = index)
               then cell_mass raster_band gaussian index
               else cell raster x y.
Proof.
  intros Hloc Hsound Hraster Hrect Hi Hj. destruct index as [a b]; cbn [fst snd] in *.
  unfold cell_body, rasterize_cell, dict_get. rewrite Hloc. cbn [mbind result_bind].
  set (location := to_numpy (index_to_cartesian raster_band (a, b))).
  set (top_right := vadd location _).
  set (top_left := vadd location _).
  set (bottom_right := vadd location _).
  set (bottom_left := vadd location _).
  set (c1 := cache_cdf gaussian cdf_raster top_right).
  set (c2 := cache_cdf gaussian c1 top_left).
  set (c3 := cache_cdf gaussian c2 bottom_right).
  set (c4 := cache_cdf gaussian c3 bottom_left).
  assert (cache_sound gaussian c1) as Hs1 by by apply cache_cdf_sound.
  assert (cache_sound gaussian c2) as Hs2 by by apply cache_cdf_sound.
  assert (cache_sound gaussian c3) as Hs3 by by apply cache_cdf_sound.
  assert (cache_sound gaussian c4) as Hs4 by by apply cache_cdf_sound.
  assert (c4 !! top_right = Some (cdf gaussian top_right)) as ->.
  { do 3 apply cache_cdf_keeps. by apply cache_cdf_lookup. }
  assert (c4 !! top_left = Some (cdf gaussian top_left)) as ->.
  { do 2 apply cache_cdf_keeps. by apply cache_cdf_lookup. }
  assert (c4 !! bottom_right = Some (cdf gaussian bottom_right)) as ->.
  { apply cache_cdf_keeps. by apply cache_cdf_lookup. }
  assert (c4 !! bottom_left = Some (cdf gaussian bottom_left)) as ->.
  { by apply cache_cdf_lookup. }
  unfold setitem3. rewrite Hraster. cbn [mbind result_bind].
  destruct (setitem_ok W H raster a b
              (weight gaussian
               * (cdf gaussian top_right - cdf gaussian top_left
                  - cdf gaussian bottom_right + cdf gaussian bottom_left))
              Hrect Hi Hj) as (raster' & -> & Hrect' & Hcell).
  exists c4, raster'. cbn [mbind result_bind].
  split; [done |]. split; [done |]. split; [done |].
  intros x y. rewrite Hcell. case_decide; [| done].
  unfold cell_mass, top_right, top_left, bottom_right, bottom_left, location.
  unfold vadd, scale, vstack, to_numpy; cbn [fst snd].
  by rewrite !corner_minus, !corner_plus.
Qed.

(** All the cells of one component. *)
Lemma cells_loop_ok W H raster_band i gaussian indices :
  (∀ index, index ∈ indices →
     cartesian_locations raster_band !! index
       = Some (index_to_cartesian raster_band index)
     ∧ (index.1 < W)%nat ∧ (index.2 < H)%nat) →
  ∀ cdf_raster (probabilities : list ndarray) raster,
  cache_sound gaussian cdf_raster →
  probabilities !! i = Some raster →
  rectangular W H raster →
  ∃ cdf_raster' raster',
    for_each (cell_body raster_band i gaussian) indices (cdf_raster, probabilities)
      = Ok (cdf_raster', <[i := raster']> probabilities)
    ∧ rectangular W H raster'
    ∧ ∀ x y, cell raster' x y
             = if decide ((x, y) ∈ indices)
               then cell_mass raster_band gaussian (x, y)
               else cell raster x y.
Proof.
  induction indices as [| index indices IH];
    intros Hindices cdf_raster probabilities raster Hsound Hraster Hrect.
  - exists cdf_raster, raster. cbn [for_each].
    rewrite list_insert_id by done. split; [done |]. split; [done |].
    intros x y. case_decide as Hin; [by apply elem_of_nil in Hin | done].
  - destruct (Hindices index) as (Hloc & Hi & Hj); [by left |].
    destruct (cell_body_ok W H raster_band i gaussian cdf_raster probabilities
                raster index Hloc Hsound Hraster Hrect Hi Hj)
      as (cdf_raster1 & raster1 & Hstep & Hsound1 & Hrect1 & Hcell1).
    destruct (IH (λ index' Hin, Hindices index' (list_elem_of_further _ _ _ Hin))
                cdf_raster1 (<[i := raster1]> probabilities) raster1 Hsound1)
      as (cdf_raster' & raster' & Hloop & Hrect' & Hcell'); [| done |].
    { apply list_lookup_insert_eq. by eapply lookup_lt_Some. }
    exists cdf_raster', raster'. cbn [for_each]. rewrite Hstep. cbn [mbind result_bind].
    rewrite Hloop, list_insert_insert_eq. split; [done |]. split; [done |].
    intros x y. rewrite Hcell', Hcell1. clear IH Hcell' Hcell1 Hindices.
    destruct (decide ((x, y) ∈ indices)) as [Hin | Hin].
    + rewrite decide_True; [done | by right].
    + destruct (decide ((x, y) = index)) as [<- | Hne].
      * rewrite decide_True; [done | by left].
      * rewrite decide_False; [done |]. rewrite elem_of_cons. tauto.
Qed.

(** A raster that holds, in every cell, the mass of one component. *)
Definition mass_raster (W H : nat) (raster_band : RasterBand) (gaussian : Gaussian)
    (raster : ndarray) : Prop :=
  rectangular W H raster
  ∧ ∀ x y, (x < W)%nat → (y < H)%nat →
      cell raster x y = cell_mass raster_band gaussian (x, y).

(** The locations the loops look up are those the constructor stored. *)
Definition locations_cached (W H : nat) (raster_band : RasterBand) : Prop :=
  ∀ index, (index.1 < W)%nat → (index.2 < H)%nat →
    cartesian_locations raster_band !! index
    = Some (index_to_cartesian raster_band index).

Lemma component_body_ok W H raster_band i gaussian (probabilities : list ndarray)
    raster :
  locations_cached W H raster_band →
  probabilities !! i = Some raster →
  rectangular W H raster →
  ∃ raster',
    component_body raster_band (W, H) probabilities (i, gaussian)
      = Ok (<[i := raster']> probabilities)
    ∧ mass_raster W H raster_band gaussian raster'.
Proof.
  intros Hcached Hraster Hrect.
  destruct (cells_loop_ok W H raster_band i gaussian
              (product (range W) (range H))) with (cdf_raster := (∅ : gmap (Qc * Qc) Qc))
      (probabilities := probabilities) (raster := raster)
    as (cdf_raster' & raster' & Hloop & Hrect' & Hcell);
    [| apply cache_sound_empty | done | done |].
  { intros [x y] Hin. apply elem_of_product in Hin as [Hx Hy].
    split; [by apply Hcached | done]. }
  exists raster'. unfold component_body, rasterize_component; cbn [fst snd].
  fold (cell_body raster_band). rewrite Hloop. split; [done |].
  split; [done |]. intros x y Hx Hy. rewrite Hcell.
  rewrite decide_True; [done |]. by apply elem_of_product.
Qed.

(** All the components, from component [k] on. *)
Lemma components_loop_ok W H raster_band gaussians :
  locations_cached W H raster_band →
  ∀ k (probabilities : list ndarray),
  Forall (rectangular W H) probabilities →
  (k + length gaussians ≤ length probabilities)%nat →
  ∃ probabilities',
    for_each (component_body raster_band (W, H))
      (imap (λ i gaussian, ((k + i)%nat, gaussian)) gaussians) probabilities
      = Ok probabilities'
    ∧ length probabilities' = length probabilities
    ∧ Forall (rectangular W H) probabilities'
    ∧ (∀ i, (i < k)%nat → probabilities' !! i = probabilities !! i)
    ∧ (∀ i gaussian, gaussians !! i = Some gaussian →
         ∃ raster, probabilities' !! (k + i)%nat = Some raster
                   ∧ mass_raster W H raster_band gaussian raster).
Proof.
  intros Hcached. induction gaussians as [| gaussian gaussians IH];
    intros k probabilities Hrects Hlen.
  - exists probabilities. repeat split; done.
  - cbn [length] in Hlen.
    destruct (lookup_lt_is_Some_2 probabilities k) as [raster Hraster]; [lia |].
    destruct (component_body_ok W H raster_band k gaussian probabilities raster)
      as (raster' & Hstep & Hmass); [done | done | |].
    { by apply (Forall_lookup_1 _ _ _ _ Hrects Hraster). }
    destruct (IH (S k) (<[k := raster']> probabilities))
      as (probabilities' & Hloop & Hlen' & Hrects' & Hbefore & Hafter).
    { apply Forall_insert; [done | apply Hmass]. }
    { rewrite length_insert. lia. }
    exists probabilities'. rewrite imap_cons. cbn [for_each].
    rewrite Nat.add_0_r, Hstep. cbn [mbind result_bind].
    rewrite (imap_ext _ (λ i gaussian, ((S k + i)%nat, gaussian)))
      by (intros; cbn; f_equal; lia).
    rewrite Hloop. split; [done |]. split; [by rewrite Hlen', length_insert |].
    split; [done |]. split.
    + intros i Hi. rewrite Hbefore by lia. apply list_lookup_insert_ne. lia.
    + intros [| i] g Hg.
      * injection Hg as <-. exists raster'. split; [| done].
        rewrite Nat.add_0_r, Hbefore by lia.
        apply list_lookup_insert_eq. by eapply lookup_lt_Some.
      * destruct (Hafter i g Hg) as (r & Hr & Hm). exists r. split; [| done].
        by replace (k + S i)%nat with (S k + i)%nat by lia.
Qed.

(** The sum of the stack, cell by cell. *)
Lemma sum_rasters_cell W H raster_band gaussians (probabilities : list ndarray) x y :
  Forall2 (mass_raster W H raster_band) gaussians probabilities →
  (x < W)%nat → (y < H)%nat →
  ∀ acc, rectangular W H acc →
  rectangular W H (foldl add_arrays acc probabilities)
  ∧ cell (foldl add_arrays acc probabilities) x y
    = cell acc x y + mixture_mass raster_band gaussians (x, y).
Proof.
  intros Hall Hx Hy. induction Hall as [| g r gs rs [Hrect Hcell] _ IH]; intros acc Hacc.
  - cbn. split; [done |]. by rewrite Qcplus_0_r.
  - cbn [foldl mixture_mass foldr].
    destruct (IH (add_arrays acc r)) as [Hrect' Hsum]; [by apply rectangular_add |].
    split; [done |]. rewrite Hsum.
    rewrite (cell_add_arrays W H) by done. rewrite Hcell by done.
    unfold mixture_mass. ring.
Qed.

(** ** Slices *)

(** The extent of [l[lo:hi]] for a list of length [n]. *)
Definition slice_length (lo hi : option nat) (n : nat) : nat :=
  (match hi with Some h => h `min` n | None => n end
   - match lo with Some l => l | None => 0 end)%nat.

Lemma length_slice {A} lo hi (l : list A) :
  length (slice lo hi l) = slice_length lo hi (length l).
Proof.
  unfold slice, slice_length. destruct lo, hi;
    rewrite ?length_drop, ?length_take; lia.
Qed.

Lemma rectangular_slice2 W H (a : ndarray) x0 x1 y0 y1 :
  rectangular W H a →
  rectangular (slice_length x0 x1 W) (slice_length y0 y1 H) (slice2 a x0 x1 y0 y1).
Proof.
  intros [Hlen Hrows]. unfold slice2. split.
  - by rewrite length_fmap, length_slice, Hlen.
  - apply Forall_fmap. assert (Forall (λ r : list Qc, length r = H) (slice x0 x1 a)) as Hs.
    { unfold slice. destruct x0, x1; auto using Forall_drop, Forall_take. }
    eapply Forall_impl; [exact Hs |]. intros row Hrow; cbn.
    by rewrite length_slice, Hrow.
Qed.

Lemma size_rectangular W H (a : ndarray) : rectangular W H a → size_of a = (W * H)%nat.
Proof.
  intros [Hlen Hrows]. unfold size_of. subst W.
  induction Hrows as [| row a Hrow _ IH]; [done |].
  cbn. rewrite length_app, IH, Hrow. done.
Qed.

Lemma rectangular_shape W H (a : ndarray) :
  (0 < W)%nat → rectangular W H a → shape0 a = W ∧ shape1 a = H.
Proof. intros HW Hrect. split; [apply Hrect | by apply (rectangular_shape1 W)]. Qed.

(** ** Extremes and columns *)

Lemma foldr_min_le d l x : x ∈ l → foldr Qc_min d l ≤ x.
Proof.
  induction l as [| y l IH]; intros Hin; [by apply elem_of_nil in Hin |].
  cbn. unfold Qc_min at 1. apply elem_of_cons in Hin as [-> | Hin].
  - case_decide as Hle; [done |]. by apply Qclt_le_weak, Qclt_nge.
  - case_decide as Hle; [| by apply IH]. etrans; [exact Hle | by apply IH].
Qed.

Lemma foldr_max_ge d l x : x ∈ l → x ≤ foldr Qc_max d l.
Proof.
  induction l as [| y l IH]; intros Hin; [by apply elem_of_nil in Hin |].
  cbn. unfold Qc_max at 1. apply elem_of_cons in Hin as [-> | Hin].
  - case_decide as Hle; [done | done].
  - case_decide as Hle; [by apply IH |].
    etrans; [by apply IH |]. by apply Qclt_le_weak, Qclt_nge.
Qed.

Lemma foldr_min_in d l : foldr Qc_min d l = d ∨ foldr Qc_min d l ∈ l.
Proof.
  induction l as [| y l IH]; [by left |].
  cbn. unfold Qc_min at 1 3. case_decide.
  - right. by left.
  - destruct IH as [-> | Hin]; [by left | right; by right].
Qed.

Lemma foldr_max_in d l : foldr Qc_max d l = d ∨ foldr Qc_max d l ∈ l.
Proof.
  induction l as [| y l IH]; [by left |].
  cbn. unfold Qc_max at 1 3. case_decide.
  - destruct IH as [-> | Hin]; [by left | right; by right].
  - right. by left.
Qed.

Lemma list_min_le l x : x ∈ l → list_min l ≤ x.
Proof. apply foldr_min_le. Qed.

Lemma list_max_ge l x : x ∈ l → x ≤ list_max l.
Proof. apply foldr_max_ge. Qed.

Lemma list_min_in l : l ≠ [] → list_min l ∈ l.
Proof.
  intros Hl. destruct (foldr_min_in (default 0 (head l)) l) as [Heq | Hin]; [| done].
  unfold list_min. rewrite Heq. destruct l; [done | by left].
Qed.

Lemma list_max_in l : l ≠ [] → list_max l ∈ l.
Proof.
  intros Hl. destruct (foldr_max_in (default 0 (head l)) l) as [Heq | Hin]; [| done].
  unfold list_max. rewrite Heq. destruct l; [done | by left].
Qed.

Lemma lookup_column (a : ndarray) i j :
  (i < length a)%nat → column a j !! i = Some (cell a i j).
Proof.
  intros Hi. unfold column, cell. rewrite list_lookup_fmap.
  destruct (lookup_lt_is_Some_2 a i Hi) as [row ->]. done.
Qed.

Lemma elem_of_column (a : ndarray) j x :
  x ∈ column a j ↔ ∃ i, (i < length a)%nat ∧ x = cell a i j.
Proof.
  rewrite list_elem_of_lookup. split.
  - intros [i Hi]. exists i.
    assert (i < length a)%nat as Hlt.
    { apply lookup_lt_Some in Hi. unfold column in Hi. by rewrite length_fmap in Hi. }
    split; [done |]. rewrite lookup_column in Hi by done. congruence.
  - intros (i & Hi & ->). exists i. by apply lookup_column.
Qed.

Lemma length_column (a : ndarray) j : length (column a j) = length a.
Proof. apply length_fmap. Qed.

(** ** Scaling *)

(** The extremes of a column and the factor scikit-learn derives from them. *)
Definition column_min (a : ndarray) (j : nat) : Qc := list_min (column a j).
Definition column_max (a : ndarray) (j : nat) : Qc := list_max (column a j).
Definition feature_scale (feature_range : Qc * Qc) (a : ndarray) (j : nat) : Qc :=
  (feature_range.2 - feature_range.1)
  / handle_zeros_in_scale (column_max a j - column_min a j).

Lemma fit_transform_ok W H feature_range (X : ndarray) :
  rectangular W H X → (0 < W)%nat → (0 < H)%nat →
  ∃ X' : ndarray,
    MinMaxScaler_fit_transform feature_range X = Ok X'
    ∧ rectangular W H X'
    ∧ ∀ i j, (i < W)%nat → (j < H)%nat →
        cell X' i j
        = cell X i j * feature_scale feature_range X j
          + (feature_range.1 - column_min X j * feature_scale feature_range X j).
Proof.
  intros Hrect HW HH. destruct (rectangular_shape W H X HW Hrect) as [Hs0 Hs1].
  unfold MinMaxScaler_fit_transform. rewrite Hs0, Hs1, decide_False by lia.
  set (data_min := (λ j, list_min (column X j)) <$> range H).
  set (data_max := (λ j, list_max (column X j)) <$> range H).
  set (data_range := zip_with Qcminus data_max data_min).
  set (scale_ := _ <$> data_range).
  set (min_ := zip_with _ data_min scale_).
  assert (∀ j, (j < H)%nat → data_min !! j = Some (column_min X j)) as Hmin.
  { intros j Hj. unfold data_min, range. by rewrite list_lookup_fmap, lookup_seq_lt. }
  assert (∀ j, (j < H)%nat → data_max !! j = Some (column_max X j)) as Hmax.
  { intros j Hj. unfold data_max, range. by rewrite list_lookup_fmap, lookup_seq_lt. }
  assert (∀ j, (j < H)%nat → scale_ !! j = Some (feature_scale feature_range X j))
    as Hscale.
  { intros j Hj. unfold scale_, data_range.
    by rewrite list_lookup_fmap, lookup_zip_with, Hmax, Hmin. }
  assert (∀ j, (j < H)%nat →
            min_ !! j = Some (feature_range.1
                              - column_min X j * feature_scale feature_range X j))
    as Hmin_.
  { intros j Hj. unfold min_. by rewrite lookup_zip_with, Hmin, Hscale. }
  assert (length scale_ = H ∧ length min_ = H) as [Hlen_scale Hlen_min].
  { unfold min_, scale_, data_range, data_min, data_max, range.
    rewrite !length_zip_with, !length_fmap, !length_zip_with, !length_fmap, !length_seq.
    lia. }
  eexists. split; [done |]. destruct Hrect as [Hlen Hrows]. split.
  - split; [by rewrite length_fmap |].
    apply Forall_fmap. eapply Forall_impl; [exact Hrows |].
    intros row Hrow; cbn in *. rewrite !length_zip_with. lia.
  - intros i j Hi Hj.
    destruct (cell_in_range W H X i j (conj Hlen Hrows) Hi Hj) as (row & Hrow & Hv).
    eapply cell_lookup.
    + by rewrite list_lookup_fmap, Hrow.
    + by rewrite !lookup_zip_with, Hv, Hscale, Hmin_.
Qed.

Lemma uint8_integer (n : Z) : (0 ≤ n < 256)%Z → uint8 (qz n) = n.
Proof.
  intros Hn. unfold uint8, qz; cbn. rewrite Z.quot_1_r. by apply Z.mod_small.
Qed.

Section Properties.

Variable to_polar : CartesianLocation → PolarLocation → PolarLocation.

(** ** The constructor *)

(** The band the constructor builds when no division fails. *)
Definition constructed (data : ndarray) (origin : PolarLocation) (width height : Qc)
  : RasterBand :=
  let indices := product (range (shape0 data)) (range (shape1 data)) in
  let geometry := mkRasterBand data origin width height
                    (width / qn (shape0 data)) (height / qn (shape1 data))
                    (width / qz 2) (height / qz 2) in
  let self := geometry ∅ ∅ in
  let self := geometry (dict_comprehension (index_to_cartesian self) indices) ∅ in
  geometry (cartesian_locations self)
           (dict_comprehension (index_to_polar to_polar self) indices).

Lemma init_ok data origin width height :
  shape0 data ≠ 0%nat → shape1 data ≠ 0%nat →
  __init__ to_polar data origin width height = Ok (constructed data origin width height).
Proof.
  intros H0 H1. unfold __init__, py_div.
  rewrite !decide_False by done. reflexivity.
Qed.

Lemma init_raises data origin width height :
  shape0 data = 0%nat ∨ shape1 data = 0%nat →
  __init__ to_polar data origin width height = Raise ZeroDivisionError.
Proof.
  intros H. unfold __init__, py_div.
  destruct (decide (shape0 data = 0%nat)); simpl; [done |].
  destruct (decide (shape1 data = 0%nat)); simpl; [done | tauto].
Qed.

Lemma init_inv data origin width height self :
  __init__ to_polar data origin width height = Ok self →
  shape0 data ≠ 0%nat ∧ shape1 data ≠ 0%nat
  ∧ self = constructed data origin width height.
Proof.
  intros Hinit.
  destruct (decide (shape0 data = 0%nat)) as [H0 | H0];
    [rewrite init_raises in Hinit by tauto; done |].
  destruct (decide (shape1 data = 0%nat)) as [H1 | H1];
    [rewrite init_raises in Hinit by tauto; done |].
  rewrite init_ok in Hinit by done. by inversion Hinit.
Qed.

(** ** Cell centres *)

(** C2.  On a band built by the constructor from a grid of shape (W, H), the
    cartesian location of the index (i, j) has
    east = (pixel_width/2 + i*pixel_width) - width/2 and
    north = height/2 - (pixel_height/2 + j*pixel_height), where pixel_width
    = width/W and pixel_height = height/H: the centre of the cell, measured
    from the centre of the grid.  For a positive width the east coordinate
    grows with i, and for a positive height the north coordinate falls as j
    grows. *)
Theorem index_to_cartesian_center grid origin0 width0 height0 self i j :
  __init__ to_polar grid origin0 width0 height0 = Ok self →
  let pw := width0 / qn (shape0 grid) in
  let ph := height0 / qn (shape1 grid) in
  index_to_cartesian self (i, j)
  = {| east := (pw / qz 2 + qn i * pw) - width0 / qz 2;
       north := height0 / qz 2 - (ph / qz 2 + qn j * ph) |}
  ∧ (0 < width0 → ∀ i', (i < i')%nat →
       east (index_to_cartesian self (i, j)) < east (index_to_cartesian self (i', j)))
  ∧ (0 < height0 → ∀ j', (j < j')%nat →
       north (index_to_cartesian self (i, j')) < north (index_to_cartesian self (i, j))).
Proof.
  intros Hinit pw ph. apply init_inv in Hinit as (HW & HH & ->).
  unfold index_to_cartesian, constructed; cbn [pixel_width pixel_height
    center_x center_y east north fst snd].
  fold pw ph. split; [| split].
  - f_equal. ring.
  - intros Hwidth i' Hlt.
    assert (0 < pw) as Hpw by (apply pixel_positive; [lia | done]).
    apply qn_lt in Hlt.
    assert (qn i * pw < qn i' * pw) as Hmul by by apply Qcmult_lt_mono_pos_r.
    clearbody pw ph. Qc_lra.
  - intros Hheight j' Hlt.
    assert (0 < ph) as Hph by (apply pixel_positive; [lia | done]).
    apply qn_lt in Hlt.
    assert (qn j * ph < qn j' * ph) as Hmul by by apply Qcmult_lt_mono_pos_r.
    clearbody pw ph. Qc_lra.
Qed.

(** ** Construction and degenerate geometry *)

(** C7 (as amended).  The constructor raises exactly when a dimension of the
    grid is zero, and then it is the division for the pixel size that fails;
    width and height are not examined: on any other grid the band is built,
    with pixel_width = width/W and pixel_height = height/H, whatever their
    sign. *)
Theorem init_raises_iff_empty_axis grid origin0 width0 height0 :
  (shape0 grid = 0%nat ∨ shape1 grid = 0%nat →
     __init__ to_polar grid origin0 width0 height0 = Raise ZeroDivisionError)
  ∧ (shape0 grid ≠ 0%nat → shape1 grid ≠ 0%nat →
     ∃ self, __init__ to_polar grid origin0 width0 height0 = Ok self
       ∧ width self = width0 ∧ height self = height0
       ∧ pixel_width self = width0 / qn (shape0 grid)
       ∧ pixel_height self = height0 / qn (shape1 grid)).
Proof.
  split; [apply init_raises |].
  intros HW HH. eexists. split; [by apply init_ok | done].
Qed.

(** ** The dictionaries of locations *)

(** Both dictionaries hold, at exactly the indices of the grid, what the
    conversions compute on demand. *)
Definition caches_match (self : RasterBand) : Prop :=
  ∀ index,
    cartesian_locations self !! index
    = (if decide (index.1 < shape0 (data self) ∧ index.2 < shape1 (data self))%nat
       then Some (index_to_cartesian self index) else None)
    ∧ polar_locations self !! index
      = (if decide (index.1 < shape0 (data self) ∧ index.2 < shape1 (data self))%nat
         then Some (index_to_polar to_polar self index) else None).

Lemma constructed_caches_match grid origin width height :
  caches_match (constructed grid origin width height).
Proof.
  intros [i j]. unfold constructed;
    cbn [cartesian_locations polar_locations data fst snd].
  rewrite !lookup_dict_comprehension.
  split; (destruct (decide ((i, j) ∈ product (range (shape0 grid)) (range (shape1 grid))))
            as [Hin | Hin];
          [rewrite decide_True; [done | by apply elem_of_product]
          | rewrite decide_False; [done | by rewrite <-elem_of_product]]).
Qed.

Lemma set_data_caches_match self data' :
  shape0 data' = shape0 (data self) → shape1 data' = shape1 (data self) →
  caches_match self → caches_match (set_data self data').
Proof.
  intros H0 H1 Hself index. unfold set_data;
    cbn [cartesian_locations polar_locations].
  destruct (Hself index) as [-> ->]. cbn [data]. rewrite H0, H1. done.
Qed.

(** ** The mixture rasteriser *)

Lemma shape_zeros W H : (0 < W)%nat → shape0 (zeros (W, H)) = W ∧ shape1 (zeros (W, H)) = H.
Proof.
  intros HW. split.
  - apply length_replicate.
  - by apply (rectangular_shape1 W), rectangular_zeros.
Qed.

Lemma from_gaussian_mixture_ok gaussian_mixture origin width height W H :
  (0 < W)%nat → (0 < H)%nat →
  let raster_band := constructed (zeros (W, H)) origin width height in
  ∃ probabilities : list ndarray,
    from_gaussian_mixture to_polar gaussian_mixture origin width height (W, H)
      = Ok (set_data raster_band (sum_axis0 (W, H) probabilities))
    ∧ Forall2 (mass_raster W H raster_band) gaussian_mixture probabilities.
Proof.
  intros HW HH raster_band. destruct (shape_zeros W H HW) as [Hs0 Hs1].
  assert (locations_cached W H raster_band) as Hcached.
  { intros index Hi Hj.
    destruct (constructed_caches_match (zeros (W, H)) origin width height index)
      as [Hc _].
    fold raster_band in Hc. rewrite Hc.
    subst raster_band. cbn [data constructed]. rewrite Hs0, Hs1. by rewrite decide_True. }
  destruct (components_loop_ok W H raster_band gaussian_mixture Hcached 0
              (replicate (length gaussian_mixture) (zeros (W, H))))
    as (probabilities & Hloop & Hlen & Hrects & _ & Hmass).
  { apply Forall_replicate, rectangular_zeros. }
  { rewrite length_replicate. lia. }
  exists probabilities. split.
  - unfold from_gaussian_mixture. rewrite init_ok by lia.
    cbn [mbind result_bind]. fold raster_band.
    fold (component_body raster_band). unfold enumerate.
    change (imap (λ i x, (i, x)) gaussian_mixture)
      with (imap (λ i (x : Gaussian), ((0 + i)%nat, x)) gaussian_mixture).
    by rewrite Hloop.
  - apply Forall2_same_length_lookup_2.
    + rewrite Hlen, length_replicate. done.
    + intros i g r Hg Hr. destruct (Hmass i g Hg) as (r' & Hr' & Hm).
      cbn in Hr'. congruence.
Qed.

Lemma from_gaussian_mixture_inv gaussian_mixture origin width height resolution self :
  from_gaussian_mixture to_polar gaussian_mixture origin width height resolution
    = Ok self →
  (0 < resolution.1)%nat ∧ (0 < resolution.2)%nat.
Proof.
  intros Hrun. unfold from_gaussian_mixture in Hrun.
  destruct (__init__ to_polar (zeros resolution) origin width height)
    as [raster_band | e] eqn:Hinit; [| done].
  apply init_inv in Hinit as (HW & HH & _).
  destruct resolution as [W H]. unfold zeros, shape0, shape1 in *; cbn [fst snd] in *.
  rewrite length_replicate in HW. destruct W; [done |].
  cbn in HH. rewrite length_replicate in HH. lia.
Qed.

(** C1.  For a resolution (W, H) with W, H > 0, every mixture, origin, width
    and height, [from_gaussian_mixture] returns a band of that geometry
    whose data, a W x H grid, holds at each cell (i, j) the sum over the
    components of weight * (CDF(top right) - CDF(top left) - CDF(bottom
    right) + CDF(bottom left)), the corners being the cartesian centre of
    the cell moved by half the pixel width and half the pixel height: the
    values are those of [mixture_mass], which evaluates the distribution
    function at every corner and knows no cache. *)
Theorem from_gaussian_mixture_cell_mass gaussian_mixture origin0 width0 height0 W H :
  (0 < W)%nat → (0 < H)%nat →
  ∃ raster_band,
    from_gaussian_mixture to_polar gaussian_mixture origin0 width0 height0 (W, H)
      = Ok raster_band
    ∧ origin raster_band = origin0
    ∧ width raster_band = width0 ∧ height raster_band = height0
    ∧ pixel_width raster_band = width0 / qn W
    ∧ pixel_height raster_band = height0 / qn H
    ∧ rectangular W H (data raster_band)
    ∧ ∀ i j, (i < W)%nat → (j < H)%nat →
        cell (data raster_band) i j = mixture_mass raster_band gaussian_mixture (i, j).
Proof.
  intros HW HH.
  destruct (from_gaussian_mixture_ok gaussian_mixture origin0 width0 height0 W H HW HH)
    as (probabilities & Hrun & Hmass).
  destruct (shape_zeros W H HW) as [Hs0 Hs1].
  eexists. split; [exact Hrun |].
  unfold set_data, constructed;
    cbn [origin width height pixel_width pixel_height data].
  rewrite Hs0, Hs1. do 5 (split; [done |]).
  split.
  - apply (sum_rasters_cell W H _ _ _ 0 0 Hmass HW HH), rectangular_zeros.
  - intros i j Hi Hj.
    destruct (sum_rasters_cell W H _ _ _ i j Hmass Hi Hj (zeros (W, H)))
      as [_ Hsum]; [apply rectangular_zeros |].
    unfold sum_axis0. rewrite Hsum, cell_zeros, Qcplus_0_l.
    unfold constructed. by rewrite Hs0, Hs1.
Qed.

(** C10.  For a resolution (W, H) with W, H > 0 and a mixture without
    components, [from_gaussian_mixture] returns a band whose data is the
    grid of zeros of shape (W, H): the sum of the empty stack of rasters.
    No distribution function occurs in the computation. *)
Theorem from_gaussian_mixture_no_component origin0 width0 height0 W H :
  (0 < W)%nat → (0 < H)%nat →
  ∃ raster_band,
    from_gaussian_mixture to_polar [] origin0 width0 height0 (W, H) = Ok raster_band
    ∧ data raster_band = zeros (W, H)
    ∧ rectangular W H (data raster_band)
    ∧ ∀ i j, cell (data raster_band) i j = 0.
Proof.
  intros HW HH. destruct (shape_zeros W H HW) as [Hs0 Hs1].
  eexists. split.
  - unfold from_gaussian_mixture. rewrite init_ok by lia. reflexivity.
  - cbn [set_data data sum_axis0 foldl]. split; [done |].
    split; [apply rectangular_zeros | apply cell_zeros].
Qed.

(** ** Splitting *)

(** The extents and offsets [split] computes along one axis, for the extent
    [size] and the pixel size [pixel]: the low part, the high part, the
    negative offset and the positive offset. *)
Definition halves (size pixel low high negative positive : Qc) : Prop :=
  (py_mod2 size ≠ 0
   ∧ low = (size - pixel) / qz 2 ∧ high = (size + pixel) / qz 2
   ∧ negative = - (size + pixel) / qz 4 ∧ positive = (size - pixel) / qz 4)
  ∨ (py_mod2 size = 0
     ∧ low = size / qz 2 ∧ high = size / qz 2
     ∧ negative = - (size / qz 4) ∧ positive = size / qz 4).

(** The north-south axis: the first extent is the smaller one when the two
    differ, and the offsets are named by the source in the opposite order. *)
Definition halves_north (size pixel top bottom origin_north origin_south : Qc) : Prop :=
  (py_mod2 size ≠ 0
   ∧ top = (size - pixel) / qz 2 ∧ bottom = (size + pixel) / qz 2
   ∧ origin_north = - (size - pixel) / qz 4 ∧ origin_south = (size + pixel) / qz 4)
  ∨ (py_mod2 size = 0
     ∧ top = size / qz 2 ∧ bottom = size / qz 2
     ∧ origin_north = - (size / qz 4) ∧ origin_south = size / qz 4).

(** On a grid with more than one cell along both axes, [split] builds four
    bands with the constructor; this is their list. *)
Lemma split_quadrants W H self :
  rectangular W H (data self) → (1 < W)%nat → (1 < H)%nat →
  ∃ left_width right_width origin_west origin_east
    top_height bottom_height origin_north origin_south,
    halves (width self) (pixel_width self)
      left_width right_width origin_west origin_east
    ∧ halves_north (height self) (pixel_height self)
        top_height bottom_height origin_north origin_south
    ∧ split to_polar self
      = Ok (Quadrants
          [[constructed (slice2 (data self) None (Some (W / 2)%nat) None (Some (H / 2)%nat))
              (to_polar (mkCartesian origin_west origin_south) (origin self))
              left_width top_height;
            constructed (slice2 (data self) None (Some (W / 2)%nat) (Some (H / 2)%nat) None)
              (to_polar (mkCartesian origin_west origin_north) (origin self))
              left_width bottom_height];
           [constructed (slice2 (data self) (Some (W / 2)%nat) None None (Some (H / 2)%nat))
              (to_polar (mkCartesian origin_east origin_south) (origin self))
              right_width top_height;
            constructed (slice2 (data self) (Some (W / 2)%nat) None (Some (H / 2)%nat) None)
              (to_polar (mkCartesian origin_east origin_north) (origin self))
              right_width bottom_height]]).
Proof.
  intros Hrect HW HH.
  destruct (rectangular_shape W H _ ltac:(lia) Hrect) as [Hs0 Hs1].
  assert (0 < W / 2 ∧ W / 2 < W ∧ 0 < H / 2 ∧ H / 2 < H)%nat as (Hx0 & Hx1 & Hy0 & Hy1).
  { pose proof (Nat.div_mod_eq W 2). pose proof (Nat.mod_upper_bound W 2).
    pose proof (Nat.div_mod_eq H 2). pose proof (Nat.mod_upper_bound H 2). lia. }
  assert (∀ x0 x1 y0 y1 origin' width' height',
            (0 < slice_length x0 x1 W)%nat → (0 < slice_length y0 y1 H)%nat →
            __init__ to_polar (slice2 (data self) x0 x1 y0 y1) origin' width' height'
            = Ok (constructed (slice2 (data self) x0 x1 y0 y1) origin' width' height'))
    as Hinit.
  { intros x0 x1 y0 y1 origin' width' height' Hx Hy.
    destruct (rectangular_shape _ _ _ Hx (rectangular_slice2 W H _ x0 x1 y0 y1 Hrect))
      as [Ht0 Ht1].
    apply init_ok; lia. }
  unfold split. rewrite Hs0, Hs1. rewrite decide_False by lia.
  destruct (decide (py_mod2 (width self) ≠ 0)) as [Hwidth | Hwidth];
    destruct (decide (py_mod2 (height self) ≠ 0)) as [Hheight | Hheight];
    rewrite !Hinit by (unfold slice_length; lia);
    do 8 eexists; (split; [| split; [| reflexivity]]);
    first [ left; by repeat split | right; split; [by apply dec_stable | by repeat split] ].
Qed.

Lemma halves_branches size pixel low high negative positive :
  halves size pixel low high negative positive →
  (py_mod2 size ≠ 0 → low = (size - pixel) / qz 2 ∧ high = (size + pixel) / qz 2)
  ∧ (py_mod2 size = 0 → low = size / qz 2 ∧ high = size / qz 2).
Proof. intros [(Hodd & -> & -> & _) | (Heven & -> & -> & _)]; by split. Qed.

Lemma halves_north_branches size pixel top bottom origin_north origin_south :
  halves_north size pixel top bottom origin_north origin_south →
  (py_mod2 size ≠ 0 → top = (size - pixel) / qz 2 ∧ bottom = (size + pixel) / qz 2)
  ∧ (py_mod2 size = 0 → top = size / qz 2 ∧ bottom = size / qz 2).
Proof. intros [(Hodd & -> & -> & _) | (Heven & -> & -> & _)]; by split. Qed.

Lemma split_sizes W H (a : ndarray) :
  rectangular W H a →
  (size_of (slice2 a None (Some (W / 2)%nat) None (Some (H / 2)%nat))
   + size_of (slice2 a None (Some (W / 2)%nat) (Some (H / 2)%nat) None)
   + size_of (slice2 a (Some (W / 2)%nat) None None (Some (H / 2)%nat))
   + size_of (slice2 a (Some (W / 2)%nat) None (Some (H / 2)%nat) None)
   = W * H)%nat.
Proof.
  intros Hrect.
  rewrite !(size_rectangular _ _ _ (rectangular_slice2 W H a _ _ _ _ Hrect)).
  unfold slice_length.
  pose proof (Nat.div_mod_eq W 2). pose proof (Nat.mod_upper_bound W 2).
  pose proof (Nat.div_mod_eq H 2). pose proof (Nat.mod_upper_bound H 2).
  assert (W / 2 ≤ W)%nat by lia. assert (H / 2 ≤ H)%nat by lia.
  rewrite !Nat.min_l by lia. nia.
Qed.

Lemma split_sizes_positive W H (a : ndarray) :
  rectangular W H a → (1 < W)%nat → (1 < H)%nat →
  Forall (λ grid : ndarray, 0 < size_of grid)%nat
    [slice2 a None (Some (W / 2)%nat) None (Some (H / 2)%nat);
     slice2 a None (Some (W / 2)%nat) (Some (H / 2)%nat) None;
     slice2 a (Some (W / 2)%nat) None None (Some (H / 2)%nat);
     slice2 a (Some (W / 2)%nat) None (Some (H / 2)%nat) None].
Proof.
  intros Hrect HW HH.
  pose proof (Nat.div_mod_eq W 2). pose proof (Nat.mod_upper_bound W 2).
  pose proof (Nat.div_mod_eq H 2). pose proof (Nat.mod_upper_bound H 2).
  assert (0 < W / 2 ∧ W / 2 < W ∧ 0 < H / 2 ∧ H / 2 < H)%nat as (? & ? & ? & ?) by lia.
  repeat constructor;
    rewrite (size_rectangular _ _ _ (rectangular_slice2 W H a _ _ _ _ Hrect));
    unfold slice_length; rewrite ?Nat.min_l by lia; nia.
Qed.


Lemma pixel_below_extent (w : Qc) (n : nat) : (1 < n)%nat → 0 < w → w / qn n < w.
Proof.
  intros Hn Hw.
  assert (0 < w / qn n) as Hpixel by (apply pixel_positive; [lia | done]).
  assert (w / qn n * 1 < w / qn n * qn n) as Hlt.
  { apply Qcmult_lt_mono_pos_l; [done |]. apply (qn_lt 1), Hn. }
  rewrite pixel_times_count in Hlt by lia. by rewrite Qcmult_1_r in Hlt.
Qed.

Lemma halves_signs size pixel low high negative positive :
  0 < pixel → pixel < size →
  halves size pixel low high negative positive → negative < 0 ∧ 0 < positive.
Proof.
  intros Hpixel Hsize [(_ & _ & _ & -> & ->) | (_ & _ & _ & -> & ->)];
    split; Qc_lra.
Qed.

Lemma halves_north_signs size pixel top bottom origin_north origin_south :
  0 < pixel → pixel < size →
  halves_north size pixel top bottom origin_north origin_south →
  origin_north < 0 ∧ 0 < origin_south.
Proof.
  intros Hpixel Hsize [(_ & _ & _ & -> & ->) | (_ & _ & _ & -> & ->)];
    split; Qc_lra.
Qed.

(** C5 (as amended).  On a band built by the constructor with positive width
    and height: when W = 1 or H = 1, [split] returns the band itself;
    when W > 1 and H > 1 it returns [[q00, q01], [q10, q11]] where the
    origins of q00 and q01 lie west of the centre of the parent (negative
    east offset) and those of q10 and q11 east of it, and where, in each
    sublist, the first band is the northern quadrant (positive north
    offset; it holds the columns j < H // 2 of the grid, the northern cells)
    and the second the southern one (negative north offset, columns
    j >= H // 2). *)
Theorem split_layout W H grid origin0 width0 height0 self :
  __init__ to_polar grid origin0 width0 height0 = Ok self →
  rectangular W H grid → 0 < width0 → 0 < height0 →
  (W = 1%nat ∨ H = 1%nat → split to_polar self = Ok (Unsplit self))
  ∧ ((1 < W)%nat → (1 < H)%nat →
     ∃ q00 q01 q10 q11 west east south north,
       split to_polar self = Ok (Quadrants [[q00; q01]; [q10; q11]])
       ∧ west < 0 ∧ 0 < east ∧ south < 0 ∧ 0 < north
       ∧ origin q00 = to_polar (mkCartesian west north) origin0
       ∧ origin q01 = to_polar (mkCartesian west south) origin0
       ∧ origin q10 = to_polar (mkCartesian east north) origin0
       ∧ origin q11 = to_polar (mkCartesian east south) origin0
       ∧ data q00 = slice2 grid None (Some (W / 2)%nat) None (Some (H / 2)%nat)
       ∧ data q01 = slice2 grid None (Some (W / 2)%nat) (Some (H / 2)%nat) None
       ∧ data q10 = slice2 grid (Some (W / 2)%nat) None None (Some (H / 2)%nat)
       ∧ data q11 = slice2 grid (Some (W / 2)%nat) None (Some (H / 2)%nat) None).
Proof.
  intros Hinit Hrect Hwidth Hheight. apply init_inv in Hinit as (HW & HH & ->).
  assert (0 < W)%nat as HWpos by (destruct Hrect as [<- _]; unfold shape0 in HW; lia).
  destruct (rectangular_shape W H grid HWpos Hrect) as [Hs0 Hs1].
  split.
  - intros Hone. unfold split. cbn [data constructed]. rewrite Hs0, Hs1.
    by rewrite decide_True.
  - intros HW1 HH1.
    destruct (split_quadrants W H (constructed grid origin0 width0 height0) Hrect HW1 HH1)
      as (lw & rw & ow & oe & th & bh & on & os & Hhalves & Hnorth & Hsplit).
    cbn [constructed width height pixel_width pixel_height data origin]
      in Hhalves, Hnorth, Hsplit.
    rewrite Hs0 in Hhalves. rewrite Hs1 in Hnorth.
    apply halves_signs in Hhalves as [Hwest Heast];
      [| apply pixel_positive; [lia | done] | by apply pixel_below_extent].
    apply halves_north_signs in Hnorth as [Hsouth Hnorth];
      [| apply pixel_positive; [lia | done] | by apply pixel_below_extent].
    eexists _, _, _, _, ow, oe, on, os. split; [exact Hsplit |].
    by repeat split.
Qed.

(** ** Pixel sizes of the quadrants *)

Lemma qn_plus (m n : nat) : qn (m + n) = qn m + qn n.
Proof.
  apply Qc_is_canon. unfold qn, qz, Qc_of_Z; cbn [this Qcplus Q2Qc].
  rewrite Qred_correct, Nat2Z.inj_add, inject_Z_plus. reflexivity.
Qed.

Lemma qn_double (k : nat) : qn (2 * k) = (1 + 1) * qn k.
Proof. replace (2 * k)%nat with (k + k)%nat by lia. rewrite qn_plus. ring. Qed.

Lemma qn_one : qn 1 = 1.
Proof. by apply Qc_is_canon. Qed.

Lemma qz_two : qz 2 = 1 + 1.
Proof. by apply Qc_is_canon. Qed.

(** An odd number of cells, cut one pixel off the middle: both parts keep
    the pixel size. *)
Lemma cut_pixel_odd (size : Qc) (n : nat) :
  Nat.Odd n → (1 < n)%nat →
  (size - size / qn n) / qz 2 / qn (n / 2) = size / qn n
  ∧ (size + size / qn n) / qz 2 / qn (n - n / 2) = size / qn n.
Proof.
  intros [k ->] Hn.
  replace ((2 * k + 1) / 2)%nat with k
    by (apply (Nat.div_unique _ 2 k 1); lia).
  replace (2 * k + 1 - k)%nat with (k + 1)%nat by lia.
  rewrite !qn_plus, qn_double, qn_one, qz_two.
  assert (0 < qn k) as Hk by (apply qn_pos; lia).
  split; field; repeat split; intros Heq; Qc_lra.
Qed.

(** An even number of cells, cut in the middle. *)
Lemma cut_pixel_even (size : Qc) (n : nat) :
  Nat.Even n → (1 < n)%nat →
  size / qz 2 / qn (n / 2) = size / qn n
  ∧ size / qz 2 / qn (n - n / 2) = size / qn n.
Proof.
  intros [k ->] Hn.
  replace (2 * k / 2)%nat with k
    by (apply (Nat.div_unique _ 2 k 0); lia).
  replace (2 * k - k)%nat with k by lia.
  rewrite qn_double, qz_two.
  assert (0 < qn k) as Hk by (apply qn_pos; lia).
  split; field; repeat split; intros Heq; Qc_lra.
Qed.

(** The formulas of [split] keep the pixel size along an axis when the
    test on the extent, [size % 2 != 0], agrees with the parity of the
    number of cells. *)
Lemma halves_pixel size n low high negative positive :
  (1 < n)%nat → (py_mod2 size ≠ 0 ↔ Nat.Odd n) →
  halves size (size / qn n) low high negative positive →
  low / qn (n / 2) = size / qn n ∧ high / qn (n - n / 2) = size / qn n.
Proof.
  intros Hn Hparity [(Hodd & -> & -> & _) | (Heven & -> & -> & _)].
  - apply cut_pixel_odd; [by apply Hparity | done].
  - apply cut_pixel_even; [| done].
    destruct (Nat.Even_or_Odd n) as [He | Ho]; [done |].
    apply Hparity in Ho. done.
Qed.

Lemma halves_north_pixel size n top bottom origin_north origin_south :
  (1 < n)%nat → (py_mod2 size ≠ 0 ↔ Nat.Odd n) →
  halves_north size (size / qn n) top bottom origin_north origin_south →
  top / qn (n / 2) = size / qn n ∧ bottom / qn (n - n / 2) = size / qn n.
Proof.
  intros Hn Hparity [(Hodd & -> & -> & _) | (Heven & -> & -> & _)].
  - apply cut_pixel_odd; [by apply Hparity | done].
  - apply cut_pixel_even; [| done].
    destruct (Nat.Even_or_Odd n) as [He | Ho]; [done |].
    apply Hparity in Ho. done.
Qed.

(** When, along both axes, the extent in metres is odd exactly if the
    number of cells is, the four quadrants have the pixels of the parent. *)
Lemma split_pixel_size_aligned W H grid origin0 width0 height0 :
  rectangular W H grid → (1 < W)%nat → (1 < H)%nat →
  (py_mod2 width0 ≠ 0 ↔ Nat.Odd W) → (py_mod2 height0 ≠ 0 ↔ Nat.Odd H) →
  ∃ q00 q01 q10 q11,
    split to_polar (constructed grid origin0 width0 height0)
      = Ok (Quadrants [[q00; q01]; [q10; q11]])
    ∧ Forall (λ q, pixel_width q = width0 / qn W ∧ pixel_height q = height0 / qn H)
        [q00; q01; q10; q11].
Proof.
  intros Hrect HW HH Hwidth Hheight.
  destruct (rectangular_shape W H grid ltac:(lia) Hrect) as [Hs0 Hs1].
  destruct (split_quadrants W H (constructed grid origin0 width0 height0) Hrect HW HH)
    as (lw & rw & ow & oe & th & bh & on & os & Hhalves & Hnorth & Hsplit).
  cbn [constructed width height pixel_width pixel_height data origin]
    in Hhalves, Hnorth, Hsplit.
  rewrite Hs0 in Hhalves. rewrite Hs1 in Hnorth.
  apply halves_pixel in Hhalves as [Hleft Hright]; [| done | done].
  apply halves_north_pixel in Hnorth as [Htop Hbottom]; [| done | done].
  assert (W / 2 < W ∧ 0 < W / 2 ∧ H / 2 < H ∧ 0 < H / 2)%nat as (? & ? & ? & ?).
  { pose proof (Nat.div_mod_eq W 2). pose proof (Nat.mod_upper_bound W 2).
    pose proof (Nat.div_mod_eq H 2). pose proof (Nat.mod_upper_bound H 2). lia. }
  assert (∀ x0 x1 y0 y1,
            (0 < slice_length x0 x1 W)%nat →
            shape0 (slice2 grid x0 x1 y0 y1) = slice_length x0 x1 W
            ∧ shape1 (slice2 grid x0 x1 y0 y1) = slice_length y0 y1 H) as Hshape.
  { intros x0 x1 y0 y1 Hx.
    by apply rectangular_shape, rectangular_slice2. }
  do 4 eexists. split; [exact Hsplit |].
  repeat (apply List.Forall_cons || apply List.Forall_nil);
    unfold constructed; cbn [pixel_width pixel_height];
    match goal with
    | |- context [shape0 (slice2 grid ?x0 ?x1 ?y0 ?y1)] =>
        destruct (Hshape x0 x1 y0 y1) as [-> ->]; [unfold slice_length; lia |]
    end;
    unfold slice_length; rewrite ?Nat.min_l, ?Nat.sub_0_r by lia; done.
Qed.

(** What the constructor has built. *)
Definition built (self : RasterBand) : Prop :=
  ∃ grid origin0 width0 height0, __init__ to_polar grid origin0 width0 height0 = Ok self.

Lemma split_inv self outcome :
  split to_polar self = Ok outcome →
  outcome = Unsplit self
  ∨ ∃ q00 q01 q10 q11,
      outcome = Quadrants [[q00; q01]; [q10; q11]]
      ∧ built q00 ∧ built q01 ∧ built q10 ∧ built q11.
Proof.
  unfold split. intros Hsplit.
  destruct (decide (shape0 (data self) = 1 ∨ shape1 (data self) = 1)%nat);
    [left; congruence |].
  right.
  destruct (decide (py_mod2 (width self) ≠ 0));
    destruct (decide (py_mod2 (height self) ≠ 0));
    repeat match type of Hsplit with
           | (?call ≫= _) = _ =>
               destruct call as [? | ?] eqn:?;
               cbn [mbind result_bind] in Hsplit; [| done]
           end;
    injection Hsplit as <-; do 4 eexists; (split; [done |]);
    repeat split; do 4 eexists; eassumption.
Qed.

(** C9.  Every band the class produces holds, in both dictionaries and at
    exactly the indices of {0..W-1} x {0..H-1}, the locations
    [index_to_cartesian] and [index_to_polar] compute on demand: the bands
    of the constructor; the band of [from_gaussian_mixture], whose
    dictionaries are those the constructor filled although its data is
    assigned afterwards; and the bands [split] returns.  The dictionaries
    are assigned in the constructor and nowhere else. *)
Theorem caches_match_on_demand :
  (∀ grid origin0 width0 height0 self,
     __init__ to_polar grid origin0 width0 height0 = Ok self → caches_match self)
  ∧ (∀ gaussian_mixture origin0 width0 height0 resolution self,
       from_gaussian_mixture to_polar gaussian_mixture origin0 width0 height0 resolution
         = Ok self →
       caches_match self
       ∧ ∃ fresh,
           __init__ to_polar (zeros resolution) origin0 width0 height0 = Ok fresh
           ∧ cartesian_locations self = cartesian_locations fresh
           ∧ polar_locations self = polar_locations fresh)
  ∧ (∀ self outcome,
       split to_polar self = Ok outcome →
       outcome = Unsplit self
       ∨ ∃ q00 q01 q10 q11,
           outcome = Quadrants [[q00; q01]; [q10; q11]]
           ∧ caches_match q00 ∧ caches_match q01
           ∧ caches_match q10 ∧ caches_match q11).
Proof.
  assert (∀ self, built self → caches_match self) as Hbuilt.
  { intros self (grid & origin0 & width0 & height0 & Hinit).
    apply init_inv in Hinit as (_ & _ & ->). apply constructed_caches_match. }
  split; [| split].
  - intros grid origin0 width0 height0 self Hinit. apply Hbuilt. by do 4 eexists.
  - intros gaussian_mixture origin0 width0 height0 [W H] self Hrun.
    destruct (from_gaussian_mixture_inv _ _ _ _ _ _ Hrun) as [HW HH]; cbn in HW, HH.
    destruct (from_gaussian_mixture_ok gaussian_mixture origin0 width0 height0 W H HW HH)
      as (probabilities & Hok & Hmass).
    rewrite Hok in Hrun. injection Hrun as <-.
    destruct (shape_zeros W H HW) as [Hs0 Hs1].
    destruct (sum_rasters_cell W H _ _ _ 0 0 Hmass HW HH (zeros (W, H))
                (rectangular_zeros W H)) as [Hrect _].
    destruct (rectangular_shape W H _ HW Hrect) as [Ht0 Ht1].
    split.
    + apply set_data_caches_match; [| | apply constructed_caches_match].
      * unfold sum_axis0. by rewrite Ht0.
      * unfold sum_axis0. by rewrite Ht1.
    + eexists. split; [apply init_ok; lia | done].
  - intros self outcome Hsplit.
    destruct (split_inv self outcome Hsplit)
      as [-> | (q00 & q01 & q10 & q11 & -> & H00 & H01 & H10 & H11)]; [by left |].
    right. exists q00, q01, q10, q11. auto 10.
Qed.

(** ** The image *)

Lemma column_extremes W H (a : ndarray) j :
  rectangular W H a → (0 < W)%nat →
  (∀ i, (i < W)%nat → column_min a j ≤ cell a i j ∧ cell a i j ≤ column_max a j)
  ∧ (∃ i, (i < W)%nat ∧ cell a i j = column_min a j)
  ∧ (∃ i, (i < W)%nat ∧ cell a i j = column_max a j).
Proof.
  intros [Hlen _] HW. subst W.
  assert (column a j ≠ []) as Hne.
  { intros Hnil. apply (f_equal length) in Hnil. rewrite length_column in Hnil.
    cbn in Hnil. lia. }
  split; [| split].
  - intros i Hi. split.
    + apply list_min_le, elem_of_column. eauto.
    + apply list_max_ge, elem_of_column. eauto.
  - destruct (proj1 (elem_of_column a j _) (list_min_in _ Hne)) as (i & Hi & Heq).
    eauto.
  - destruct (proj1 (elem_of_column a j _) (list_max_in _ Hne)) as (i & Hi & Heq).
    eauto.
Qed.

Lemma Qc_minus_zero (x y : Qc) : x - y = 0 → x = y.
Proof. intros Heq. Qc_lra. Qed.

Lemma scaled_min (x s : Qc) : x * s + (0 - x * s) = 0.
Proof. ring. Qed.

End Properties.

(** ** The comma separated values *)

Section CommaSeparatedValues.

Variable to_polar : CartesianLocation → PolarLocation → PolarLocation.
Variable float_str : Qc → string.

Lemma append_assoc (a b c : string) : (a +:+ b) +:+ c = a +:+ (b +:+ c).
Proof.
  induction a as [| ch a IH]; [reflexivity |].
  change (String ch ((a +:+ b) +:+ c) = String ch (a +:+ (b +:+ c))). by f_equal.
Qed.

Lemma append_empty_r (a : string) : a +:+ "" = a.
Proof.
  induction a as [| ch a IH]; [reflexivity |].
  change (String ch (a +:+ "") = String ch a). by f_equal.
Qed.

(** The text [save_as_csv] writes for one cell. *)
Definition csv_row (self : RasterBand) (time : option string) (index : nat * nat)
  : string :=
  float_str (latitude (index_to_polar to_polar self index)) +:+ ", "
  +:+ float_str (longitude (index_to_polar to_polar self index)) +:+ ", "
  +:+ format_f 20 (cell (data self) index.1 index.2)
  +:+ match time with
      | Some time => ", " +:+ time +:+ newline
      | None => ""
      end
  +:+ newline.

Definition csv_rows (self : RasterBand) (time : option string)
    (indices : list (nat * nat)) : string :=
  foldr (λ index rest, csv_row self time index +:+ rest) "" indices.

Definition csv_header (time : option string) : string :=
  match time with
  | Some _ => "latitude, longitude, value, datetime"
  | None => "latitude, longitude, value"
  end.

Lemma write_rows_ok W H self time indices :
  rectangular W H (data self) →
  (∀ index, index ∈ indices → (index.1 < W)%nat ∧ (index.2 < H)%nat) →
  ∀ csv_file,
    for_each (write_row to_polar float_str self time) indices csv_file
    = Ok (csv_file +:+ csv_rows self time indices).
Proof.
  intros Hrect. induction indices as [| index indices IH]; intros Hin csv_file.
  - cbn. by rewrite append_empty_r.
  - destruct (Hin index) as [Hi Hj]; [by left |].
    destruct index as [i j]; cbn [fst snd] in Hi, Hj.
    destruct (cell_in_range W H (data self) i j Hrect Hi Hj) as (row & Hrow & Hv).
    assert (write_row to_polar float_str self time csv_file (i, j)
            = Ok (csv_file +:+ csv_row self time (i, j))) as Hstep.
    { unfold write_row, getitem, csv_row, cell; cbn [fst snd].
      rewrite Hrow. cbn [mbind option_bind]. rewrite Hv. cbn [mbind result_bind default].
      destruct time as [time |]; by rewrite !append_assoc. }
    cbn [for_each]. rewrite Hstep. cbn [mbind result_bind].
    rewrite IH by (intros index' Hin'; apply Hin; by right).
    cbn [csv_rows foldr]. by rewrite append_assoc.
Qed.

(** The whole file: the text before, or the header, and then the rows in
    the order of the indices, the first index being the outer one. *)
Lemma save_as_csv_text W H self path time append fs :
  rectangular W H (data self) → (0 < W)%nat →
  save_as_csv to_polar float_str self path time append fs
  = Ok (<[path := (if append then default "" (fs !! path)
                   else csv_header time +:+ newline)
                  +:+ csv_rows self time (product (range W) (range H))]> fs).
Proof.
  intros Hrect HW. destruct (rectangular_shape W H _ HW Hrect) as [Hs0 Hs1].
  unfold save_as_csv, open. rewrite Hs0, Hs1.
  rewrite (write_rows_ok W H) by (done || (intros [i j] Hin; by apply elem_of_product)).
  cbn [mbind result_bind]. do 2 f_equal.
  destruct append; [done |]. by destruct time.
Qed.

(** C6 (the code at the input of the scenario).  A band over the 1 x 1 grid
    [[0.5]], written with the time 2024-01-01T00:00Z and without appending,
    gives a file of three lines, each ended by a newline: the header with
    its datetime column, the row of the cell, with the value at 20 decimals
    and the time, and an empty line. *)
Theorem save_as_csv_single_cell origin0 width0 height0 path fs :
  ∃ self,
    __init__ to_polar [[half]] origin0 width0 height0 = Ok self
    ∧ save_as_csv to_polar float_str self path (Some "2024-01-01T00:00Z") false fs
      = Ok (<[path :=
                "latitude, longitude, value, datetime" +:+ newline
                +:+ (float_str (latitude (index_to_polar to_polar self (0, 0)%nat))
                     +:+ ", "
                     +:+ float_str (longitude (index_to_polar to_polar self (0, 0)%nat))
                     +:+ ", 0.50000000000000000000, 2024-01-01T00:00Z")
                +:+ newline
                +:+ newline]> fs).
Proof.
  eexists. split; [by apply init_ok |].
  rewrite (save_as_csv_text 1 1) by (done || by repeat constructor).
  do 2 f_equal. cbn [product range seq mbind list_bind fmap list_fmap app
                       csv_rows foldr csv_header csv_row fst snd].
  change (format_f 20 (cell _ 0 0)) with "0.50000000000000000000".
  rewrite append_empty_r, !append_assoc. reflexivity.
Qed.

End CommaSeparatedValues.

(** * The operations on concrete bands *)

Definition equator : PolarLocation := {| latitude := 0; longitude := 0 |}.

(** Grids of the scenarios. *)
Definition grid_3x3 : ndarray :=
  [[qz 1; qz 2; qz 3]; [qz 4; qz 5; qz 6]; [qz 7; qz 8; qz 9]].
Definition grid_columns : ndarray := [[qz 0; qz 10]; [qz 1; qz 20]].

(** A band of 10 m by 10 m over a grid, as the constructor builds it. *)
Definition band_10m (grid : ndarray) : RasterBand :=
  constructed planar_to_polar grid equator (qz 10) (qz 10).

(** A component whose distribution function is a product. *)
Definition product_gaussian : Gaussian :=
  {| weight := 1; cdf := λ point, point.1 * point.2 |}.

Ltac Qc_compute := apply Qc_is_canon; vm_compute; reflexivity.

Lemma band_10m_built grid :
  shape0 grid ≠ 0%nat → shape1 grid ≠ 0%nat →
  __init__ planar_to_polar grid equator (qz 10) (qz 10) = Ok (band_10m grid).
Proof. apply init_ok. Qed.

Lemma even_extent_10m : py_mod2 (qz 10) = 0.
Proof. Qc_compute. Qed.

Lemma planar_to_polar_inj location location' origin0 :
  planar_to_polar location origin0 = planar_to_polar location' origin0 →
  location = location'.
Proof.
  destruct location as [e n], location' as [e' n']. intros Heq.
  pose proof (f_equal latitude Heq) as Hn. pose proof (f_equal longitude Heq) as He.
  cbn [planar_to_polar latitude longitude east north] in Hn, He. clear Heq.
  f_equal; Qc_lra.
Qed.

(** The scenario of C2: on a 2 x 2 grid of 10 m by 10 m, the cell (0, 0) has
    its centre at (-2.5, 2.5) and the cell (1, 1) at (2.5, -2.5). *)
Lemma index_to_cartesian_2x2 :
  ∃ self,
    __init__ planar_to_polar (zeros (2, 2)%nat) equator (qz 10) (qz 10) = Ok self
    ∧ index_to_cartesian self (0, 0)%nat
      = {| east := Q2Qc (-5 # 2); north := Q2Qc (5 # 2) |}
    ∧ index_to_cartesian self (1, 1)%nat
      = {| east := Q2Qc (5 # 2); north := Q2Qc (-5 # 2) |}.
Proof.
  exists (band_10m (zeros (2, 2)%nat)).
  assert (__init__ planar_to_polar (zeros (2, 2)%nat) equator (qz 10) (qz 10)
          = Ok (band_10m (zeros (2, 2)%nat))) as Hinit by reflexivity.
  split; [exact Hinit |]. split.
  - destruct (index_to_cartesian_center planar_to_polar _ _ _ _ _ 0%nat 0%nat Hinit)
      as [-> _].
    f_equal; apply Qc_is_canon; reflexivity.
  - destruct (index_to_cartesian_center planar_to_polar _ _ _ _ _ 1%nat 1%nat Hinit)
      as [-> _].
    f_equal; apply Qc_is_canon; reflexivity.
Defined.

(** C1 on a mixture of one component and a grid of 2 x 3 cells. *)
Lemma from_gaussian_mixture_2x3 :
  ∃ raster_band,
    from_gaussian_mixture planar_to_polar [product_gaussian] equator (qz 10) (qz 10)
      (2, 3)%nat = Ok raster_band
    ∧ origin raster_band = equator
    ∧ width raster_band = qz 10 ∧ height raster_band = qz 10
    ∧ pixel_width raster_band = qz 10 / qn 2
    ∧ pixel_height raster_band = qz 10 / qn 3
    ∧ rectangular 2 3 (data raster_band)
    ∧ ∀ i j, (i < 2)%nat → (j < 3)%nat →
        cell (data raster_band) i j
        = mixture_mass raster_band [product_gaussian] (i, j).
Proof.
  apply (from_gaussian_mixture_cell_mass planar_to_polar [product_gaussian]
           equator (qz 10) (qz 10) 2 3); lia.
Defined.

(** C10 on a grid of 2 x 3 cells. *)
Lemma from_gaussian_mixture_empty_2x3 :
  ∃ raster_band,
    from_gaussian_mixture planar_to_polar [] equator (qz 10) (qz 10) (2, 3)%nat
      = Ok raster_band
    ∧ data raster_band = zeros (2, 3)%nat
    ∧ rectangular 2 3 (data raster_band)
    ∧ ∀ i j, cell (data raster_band) i j = 0.
Proof.
  apply (from_gaussian_mixture_no_component planar_to_polar equator (qz 10) (qz 10) 2 3);
    lia.
Defined.

(** C7, the claim refuted: a negative width is accepted, and the pixels of
    the band have a negative width. *)
Lemma init_accepts_negative_width :
  ∃ self,
    __init__ planar_to_polar (zeros (2, 2)%nat) equator (qz (-10)) (qz 10) = Ok self
    ∧ ¬ raises (__init__ planar_to_polar (zeros (2, 2)%nat) equator (qz (-10)) (qz 10))
    ∧ width self = qz (-10)
    ∧ pixel_width self = qz (-5)
    ∧ pixel_width self < 0.
Proof.
  eexists. split; [reflexivity |]. split; [by intros [e He] |].
  split; [reflexivity |]. split; [Qc_compute | reflexivity].
Qed.

(** C7 as amended, on a grid without columns and on a band of negative
    width. *)
Lemma init_raises_iff_empty_axis_cases :
  __init__ planar_to_polar [[]; []] equator (qz 10) (qz 10) = Raise ZeroDivisionError
  ∧ ∃ self,
      __init__ planar_to_polar (zeros (2, 2)%nat) equator (qz (-10)) (qz 10) = Ok self
      ∧ width self = qz (-10) ∧ height self = qz 10
      ∧ pixel_width self = qz (-10) / qn 2
      ∧ pixel_height self = qz 10 / qn 2.
Proof.
  split.
  - apply (init_raises_iff_empty_axis planar_to_polar [[]; []]). by right.
  - by apply (init_raises_iff_empty_axis planar_to_polar (zeros (2, 2)%nat)).
Defined.

(** A band of 6 x 2 cells over 27.7 m by 36 m: the width is not an even
    number of metres and the height is. *)
Definition band_27_7m : RasterBand :=
  constructed planar_to_polar (zeros (6, 2)%nat) equator (Q2Qc (277 # 10)) (qz 36).


(** C4, the code at a grid of 3 x 3 cells over 10 m by 10 m: the extent is
    even, so that both axes are cut in the middle, at 5 m, while the cells
    are cut 1 to 2; the western quadrants have pixels 5 m wide and the
    eastern ones pixels 2.5 m wide, where the parent has pixels 10/3 m
    wide, and likewise for the heights. *)
Theorem split_pixel_size_3x3 :
  ∃ q00 q01 q10 q11,
    split planar_to_polar (band_10m grid_3x3) = Ok (Quadrants [[q00; q01]; [q10; q11]])
    ∧ pixel_width (band_10m grid_3x3) = Q2Qc (10 # 3)
    ∧ pixel_height (band_10m grid_3x3) = Q2Qc (10 # 3)
    ∧ data q00 = [[qz 1]]
    ∧ pixel_width q00 = qz 5 ∧ pixel_height q00 = qz 5
    ∧ data q11 = [[qz 5; qz 6]; [qz 8; qz 9]]
    ∧ pixel_width q11 = Q2Qc (5 # 2) ∧ pixel_height q11 = Q2Qc (5 # 2)
    ∧ pixel_width q00 ≠ pixel_width (band_10m grid_3x3)
    ∧ pixel_width q11 ≠ pixel_width (band_10m grid_3x3).
Proof.
  destruct (split_quadrants planar_to_polar 3 3 (band_10m grid_3x3))
    as (lw & rw & ow & oe & th & bh & on & os & Hwidth & Hheight & Hsplit);
    [by repeat constructor | lia | lia |].
  destruct Hwidth as [[Hodd _] | (_ & -> & -> & -> & ->)];
    [by destruct Hodd; apply even_extent_10m |].
  destruct Hheight as [[Hodd _] | (_ & -> & -> & -> & ->)];
    [by destruct Hodd; apply even_extent_10m |].
  do 4 eexists. split; [exact Hsplit |].
  split; [Qc_compute |]. split; [Qc_compute |]. split; [reflexivity |].
  split; [Qc_compute |]. split; [Qc_compute |]. split; [reflexivity |].
  split; [Qc_compute |]. split; [Qc_compute |].
  split; intros Heq; apply Qc_eq_Qeq in Heq; vm_compute in Heq; discriminate.
Qed.

(** C5 as amended, on a grid of 2 x 2 cells. *)
Lemma split_layout_2x2 :
  ((2 = 1)%nat ∨ (2 = 1)%nat →
   split planar_to_polar (band_10m (zeros (2, 2)%nat))
   = Ok (Unsplit (band_10m (zeros (2, 2)%nat))))
  ∧ ((1 < 2)%nat → (1 < 2)%nat →
     ∃ q00 q01 q10 q11 west east south north,
       split planar_to_polar (band_10m (zeros (2, 2)%nat))
         = Ok (Quadrants [[q00; q01]; [q10; q11]])
       ∧ west < 0 ∧ 0 < east ∧ south < 0 ∧ 0 < north
       ∧ origin q00 = planar_to_polar (mkCartesian west north) equator
       ∧ origin q01 = planar_to_polar (mkCartesian west south) equator
       ∧ origin q10 = planar_to_polar (mkCartesian east north) equator
       ∧ origin q11 = planar_to_polar (mkCartesian east south) equator
       ∧ data q00 = slice2 (zeros (2, 2)%nat) None (Some (2 / 2)%nat) None (Some (2 / 2)%nat)
       ∧ data q01 = slice2 (zeros (2, 2)%nat) None (Some (2 / 2)%nat) (Some (2 / 2)%nat) None
       ∧ data q10 = slice2 (zeros (2, 2)%nat) (Some (2 / 2)%nat) None None (Some (2 / 2)%nat)
       ∧ data q11 = slice2 (zeros (2, 2)%nat) (Some (2 / 2)%nat) None (Some (2 / 2)%nat) None).
Proof.
  apply (split_layout planar_to_polar 2 2 (zeros (2, 2)%nat) equator (qz 10) (qz 10)).
  - reflexivity.
  - apply rectangular_zeros.
  - reflexivity.
  - reflexivity.
Defined.

(** C5, the claim refuted: on a grid of 2 x 2 cells over 10 m by 10 m the
    first band of the first sublist has its origin 2.5 m north of the centre
    of the parent, and no negative north offset gives that origin. *)
Lemma split_first_quadrant_lies_north :
  ∃ q00 q01 q10 q11,
    split planar_to_polar (band_10m (zeros (2, 2)%nat))
      = Ok (Quadrants [[q00; q01]; [q10; q11]])
    ∧ origin q00
      = planar_to_polar {| east := Q2Qc (-5 # 2); north := Q2Qc (5 # 2) |} equator
    ∧ ¬ ∃ offset, origin q00 = planar_to_polar offset equator ∧ north offset < 0.
Proof.
  destruct (split_quadrants planar_to_polar 2 2 (band_10m (zeros (2, 2)%nat)))
    as (lw & rw & ow & oe & th & bh & on & os & Hwidth & Hheight & Hsplit);
    [apply rectangular_zeros | lia | lia |].
  destruct Hwidth as [[Hodd _] | (_ & -> & -> & -> & ->)];
    [by destruct Hodd; apply even_extent_10m |].
  destruct Hheight as [[Hodd _] | (_ & -> & -> & -> & ->)];
    [by destruct Hodd; apply even_extent_10m |].
  do 4 eexists. split; [exact Hsplit |].
  cbn [constructed origin band_10m width height].
  assert (- (qz 10 / qz 4) = Q2Qc (-5 # 2)) as -> by Qc_compute.
  assert (qz 10 / qz 4 = Q2Qc (5 # 2)) as -> by Qc_compute.
  split; [done |]. intros (offset & Heq & Hsouth).
  apply planar_to_polar_inj in Heq. subst offset. by cbn in Hsouth.
Qed.


(** C9 on a grid of 2 x 2 cells. *)
Lemma caches_match_2x2 :
  caches_match planar_to_polar (band_10m (zeros (2, 2)%nat)).
Proof.
  apply (proj1 (caches_match_on_demand planar_to_polar)
           (zeros (2, 2)%nat) equator (qz 10) (qz 10)).
  reflexivity.
Defined.

(** The scenario of C6 with the flat conversion and floats shown as
    fractions: the lines of the file. *)
Example save_as_csv_single_cell_lines :
  ∃ fs : FileSystem,
    save_as_csv planar_to_polar fraction_str (band_10m [[half]]) "raster.csv"
      (Some "2024-01-01T00:00Z") false ∅ = Ok fs
    ∧ splitlines <$> fs !! "raster.csv"
      = Some ["latitude, longitude, value, datetime";
              "0/1, 0/1, 0.50000000000000000000, 2024-01-01T00:00Z";
              ""].
Proof.
  eexists. split.
  - apply (save_as_csv_text planar_to_polar fraction_str 1 1);
      [by repeat constructor | lia].
  - rewrite lookup_insert_eq. vm_compute. reflexivity.
Qed.

(** Without a time, the same band gives the header and one row. *)
Example save_as_csv_single_cell_no_time :
  ∃ fs : FileSystem,
    save_as_csv planar_to_polar fraction_str (band_10m [[half]]) "raster.csv"
      None false ∅ = Ok fs
    ∧ splitlines <$> fs !! "raster.csv"
      = Some ["latitude, longitude, value"; "0/1, 0/1, 0.50000000000000000000"].
Proof.
  eexists. split.
  - apply (save_as_csv_text planar_to_polar fraction_str 1 1);
      [by repeat constructor | lia].
  - rewrite lookup_insert_eq. vm_compute. reflexivity.
Qed.

(** * Further properties of the operations *)

(** ** The exceptions of the rasteriser *)

Section Rasteriser.

Variable to_polar : CartesianLocation → PolarLocation → PolarLocation.

Lemma from_gaussian_mixture_raises gaussian_mixture origin0 width0 height0 W H :
  W = 0%nat ∨ H = 0%nat →
  from_gaussian_mixture to_polar gaussian_mixture origin0 width0 height0 (W, H)
  = Raise ZeroDivisionError.
Proof.
  intros Hempty. unfold from_gaussian_mixture. rewrite init_raises; [done |].
  unfold zeros, shape0, shape1; cbn [fst snd]. rewrite length_replicate.
  destruct Hempty as [-> | ->]; [by left |].
  destruct W; [by left | right]. done.
Qed.

(** X4.  For a resolution of two integers that are not negative,
    [from_gaussian_mixture] raises exactly when one of them is zero, and
    then it raises ZeroDivisionError, from the constructor: its loops raise
    neither KeyError, on the dictionary of locations or on the cache, nor
    IndexError, on the stack of rasters, whatever the mixture.  (A negative
    entry is refused by [numpy.zeros] before the constructor is called; the
    resolution of the embedding is a pair of naturals.) *)
Theorem from_gaussian_mixture_raises_iff gaussian_mixture origin0 width0 height0
    (w h : Z) :
  (0 ≤ w)%Z → (0 ≤ h)%Z →
  (raises (from_gaussian_mixture to_polar gaussian_mixture origin0 width0 height0
             (Z.to_nat w, Z.to_nat h))
   ↔ w = 0%Z ∨ h = 0%Z)
  ∧ ∀ e, from_gaussian_mixture to_polar gaussian_mixture origin0 width0 height0
           (Z.to_nat w, Z.to_nat h) = Raise e →
         e = ZeroDivisionError.
Proof.
  intros Hw Hh.
  destruct (decide (w = 0 ∨ h = 0)%Z) as [Hempty | Hfull].
  - rewrite from_gaussian_mixture_raises by lia. split.
    + split; [done | by exists ZeroDivisionError].
    + by intros e [= <-].
  - destruct (from_gaussian_mixture_ok to_polar gaussian_mixture origin0 width0 height0
                (Z.to_nat w) (Z.to_nat h)) as (probabilities & -> & _); [lia | lia |].
    split; [| done]. split; [by intros [e He] | tauto].
Qed.

End Rasteriser.

Lemma from_gaussian_mixture_raises_iff_2x0 :
  (raises (from_gaussian_mixture planar_to_polar [product_gaussian] equator
             (qz 10) (qz 10) (Z.to_nat 2, Z.to_nat 0))
   ↔ 2%Z = 0%Z ∨ 0%Z = 0%Z)
  ∧ ∀ e, from_gaussian_mixture planar_to_polar [product_gaussian] equator
           (qz 10) (qz 10) (Z.to_nat 2, Z.to_nat 0) = Raise e →
         e = ZeroDivisionError.
Proof.
  apply (from_gaussian_mixture_raises_iff planar_to_polar [product_gaussian] equator
           (qz 10) (qz 10) 2 0); lia.
Defined.

(** ** The quadrants of a split *)

Lemma zip_take_drop {A} (n : nat) (l : list (list A)) :
  zip_with app (take n <$> l) (drop n <$> l) = l.
Proof.
  induction l as [| row l IH]; [done |].
  cbn. by rewrite take_drop, IH.
Qed.


Section Quadrants.

Variable to_polar : CartesianLocation → PolarLocation → PolarLocation.

(** X8.  A band with more than one cell along both axes is always split in
    four, whatever its extent, and the four grids are the blocks of the
    grid of the parent: of (W // 2) x (H // 2), (W // 2) x (H - H // 2),
    (W - W // 2) x (H // 2) and (W - W // 2) x (H - H // 2) cells, they give
    the grid back when the two of each sublist are joined along the second
    axis and the two results along the first. *)
Theorem split_reassembles W H self :
  rectangular W H (data self) → (1 < W)%nat → (1 < H)%nat →
  ∃ q00 q01 q10 q11,
    split to_polar self = Ok (Quadrants [[q00; q01]; [q10; q11]])
    ∧ rectangular (W / 2) (H / 2) (data q00)
    ∧ rectangular (W / 2) (H - H / 2) (data q01)
    ∧ rectangular (W - W / 2) (H / 2) (data q10)
    ∧ rectangular (W - W / 2) (H - H / 2) (data q11)
    ∧ zip_with app (data q00) (data q01) ++ zip_with app (data q10) (data q11)
      = data self.
Proof.
  intros Hrect HW HH.
  destruct (split_quadrants to_polar W H self Hrect HW HH) as
    (lw & rw & ow & oe & th & bh & on & os & _ & _ & Hsplit).
  do 4 eexists. split; [exact Hsplit |]. cbn [constructed data].
  assert (W / 2 ≤ W ∧ H / 2 ≤ H)%nat as [HWle HHle].
  { pose proof (Nat.div_mod_eq W 2). pose proof (Nat.div_mod_eq H 2). lia. }
  pose proof (rectangular_slice2 W H (data self) None (Some (W / 2)%nat) None
                (Some (H / 2)%nat) Hrect) as H00.
  pose proof (rectangular_slice2 W H (data self) None (Some (W / 2)%nat)
                (Some (H / 2)%nat) None Hrect) as H01.
  pose proof (rectangular_slice2 W H (data self) (Some (W / 2)%nat) None None
                (Some (H / 2)%nat) Hrect) as H10.
  pose proof (rectangular_slice2 W H (data self) (Some (W / 2)%nat) None
                (Some (H / 2)%nat) None Hrect) as H11.
  unfold slice_length in H00, H01, H10, H11.
  rewrite !(Nat.min_l (W / 2) W HWle), ?(Nat.min_l (H / 2) H HHle), !Nat.sub_0_r in H00.
  rewrite !(Nat.min_l (W / 2) W HWle), !Nat.sub_0_r in H01.
  rewrite !(Nat.min_l (H / 2) H HHle), !Nat.sub_0_r in H10.
  do 4 (split; [done |]).
  unfold slice2, slice. by rewrite !zip_take_drop, take_drop.
Qed.

End Quadrants.

Lemma split_reassembles_3x3 :
  ∃ q00 q01 q10 q11,
    split planar_to_polar (band_10m grid_3x3) = Ok (Quadrants [[q00; q01]; [q10; q11]])
    ∧ rectangular (3 / 2) (3 / 2) (data q00)
    ∧ rectangular (3 / 2) (3 - 3 / 2) (data q01)
    ∧ rectangular (3 - 3 / 2) (3 / 2) (data q10)
    ∧ rectangular (3 - 3 / 2) (3 - 3 / 2) (data q11)
    ∧ zip_with app (data q00) (data q01) ++ zip_with app (data q10) (data q11)
      = data (band_10m grid_3x3).
Proof.
  apply (split_reassembles planar_to_polar 3 3 (band_10m grid_3x3)).
  - by split; [| repeat constructor].
  - lia.
  - lia.
Defined.

(** ** The pixels of the image *)

(** The value the scaler gives the cell (i, j) before it is cut to 8 bits. *)
Definition scaled_cell (a : ndarray) (i j : nat) : Qc :=
  cell a i j * feature_scale (0, qz 255) a j
  + (0 - column_min a j * feature_scale (0, qz 255) a j).

Lemma column_cells W H (a : ndarray) j :
  rectangular W H a → column a j = (λ i, cell a i j) <$> range W.
Proof.
  intros [Hlen _]. apply list_eq. intros i. unfold range.
  destruct (decide (i < W)%nat) as [Hi | Hi].
  - by rewrite lookup_column, list_lookup_fmap, lookup_seq_lt by lia.
  - rewrite !lookup_ge_None_2; [done | |].
    + rewrite length_fmap, length_seq. lia.
    + rewrite length_column. lia.
Qed.

Lemma fmap_range_ext {A} (f g : nat → A) n :
  (∀ i, (i < n)%nat → f i = g i) → f <$> range n = g <$> range n.
Proof.
  intros Hext. apply list_fmap_ext. intros k i Hi.
  apply lookup_seq in Hi as [-> Hk]. by apply Hext.
Qed.

Lemma to_image_cells W H self :
  rectangular W H (data self) → (0 < W)%nat → (0 < H)%nat →
  to_image self
  = Ok ((λ j, (λ i, uint8 (scaled_cell (data self) i j)) <$> range W) <$> range H).
Proof.
  intros Hrect HW HH.
  destruct (fit_transform_ok W H (0, qz 255) (data self) Hrect HW HH)
    as (X' & Hfit & Hrect' & Hcell).
  destruct (rectangular_shape W H X' HW Hrect') as [Hs0 Hs1].
  unfold to_image. rewrite Hfit. cbn [mbind result_bind].
  unfold fromarray, transpose. rewrite Hs1, <-list_fmap_compose. f_equal.
  apply fmap_range_ext. intros j Hj. cbn.
  rewrite (column_cells W H) by done. rewrite <-list_fmap_compose.
  apply fmap_range_ext. intros i Hi. cbn. by rewrite Hcell.
Qed.

Lemma image_lookup {A} (f : nat → nat → A) W H i j pixel :
  ((λ j, (λ i, f i j) <$> range W) <$> range H) !! j ≫= (.!! i) = Some pixel
  ↔ (i < W)%nat ∧ (j < H)%nat ∧ pixel = f i j.
Proof.
  unfold range. rewrite list_lookup_fmap. split.
  - destruct (seq 0 H !! j) as [j' |] eqn:Hj; [| done]. cbn.
    apply lookup_seq in Hj as [-> Hj]. rewrite list_lookup_fmap.
    destruct (seq 0 W !! i) as [i' |] eqn:Hi; [| done]. cbn.
    apply lookup_seq in Hi as [-> Hi]. intros [= <-]. done.
  - intros (Hi & Hj & ->). rewrite lookup_seq_lt by done. cbn.
    by rewrite list_lookup_fmap, lookup_seq_lt.
Qed.

Lemma unit_fraction (n d : Qc) :
  0 < d → 0 ≤ n → n ≤ d → 0 ≤ n / d * qz 255 ∧ n / d * qz 255 ≤ qz 255.
Proof.
  intros Hd Hn Hle. pose proof (Qcinv_pos d Hd) as Hinv.
  assert (0 ≤ n / d) as Hlow.
  { apply Qcmult_nonneg_nonneg; [done | by apply Qclt_le_weak]. }
  assert (n / d ≤ 1) as Hhigh.
  { replace 1 with (d / d) by (field; intros Hzero; rewrite Hzero in Hd; Qc_lra).
    apply Qcmult_le_compat_r; [done | by apply Qclt_le_weak]. }
  set (t := n / d) in *. clearbody t. split; Qc_lra.
Qed.

Lemma ten_eps_positive : 0 < qz 10 * eps.
Proof. by vm_compute. Qed.

Lemma ten_eps_small : qz 10 * eps < 1.
Proof. by vm_compute. Qed.

Lemma handle_zeros_positive (r : Qc) : 0 < handle_zeros_in_scale r.
Proof.
  unfold handle_zeros_in_scale. case_decide as Hsmall; [by vm_compute |].
  apply Qcnot_lt_le in Hsmall. eapply Qclt_le_trans; [apply ten_eps_positive | done].
Qed.

Lemma scale_nonneg (lo hi : Qc) :
  0 ≤ (qz 255 - 0) / handle_zeros_in_scale (hi - lo).
Proof.
  apply Qcmult_nonneg_nonneg; [by vm_compute |].
  apply Qclt_le_weak, Qcinv_pos, handle_zeros_positive.
Qed.

Lemma scaled_difference (x lo d : Qc) :
  d ≠ 0 → x * ((qz 255 - 0) / d) + (0 - lo * ((qz 255 - 0) / d)) = (x - lo) / d * qz 255.
Proof. intros Hd. by field. Qed.

Lemma scaled_cell_range W H (a : ndarray) i j :
  rectangular W H a → (i < W)%nat →
  0 ≤ scaled_cell a i j ∧ scaled_cell a i j ≤ qz 255.
Proof.
  intros Hrect Hi.
  destruct (column_extremes W H a j Hrect ltac:(lia)) as (Hbounds & _ & _).
  destruct (Hbounds i Hi) as [Hlo Hhi]. unfold scaled_cell, feature_scale; cbn [fst snd].
  set (lo := column_min a j) in *. set (hi := column_max a j) in *.
  set (x := cell a i j) in *. clearbody lo hi x.
  pose proof (handle_zeros_positive (hi - lo)) as Hpos.
  rewrite (scaled_difference x lo) by (intros Hzero; rewrite Hzero in Hpos; Qc_lra).
  apply unit_fraction; [done | Qc_lra |].
  unfold handle_zeros_in_scale in *. case_decide as Hsmall.
  - pose proof ten_eps_small. Qc_lra.
  - Qc_lra.
Qed.

Lemma scaled_cell_mono W H (a : ndarray) i i' j :
  rectangular W H a → (i < W)%nat →
  cell a i j ≤ cell a i' j → scaled_cell a i j ≤ scaled_cell a i' j.
Proof.
  intros Hrect Hi Hle.
  destruct (column_extremes W H a j Hrect ltac:(lia)) as (Hbounds & _ & _).
  destruct (Hbounds i Hi) as [Hlo Hhi]. unfold scaled_cell, feature_scale; cbn [fst snd].
  apply Qcplus_le_compat; [| done].
  apply Qcmult_le_compat_r; [done |]. apply scale_nonneg.
Qed.

Lemma uint8_floor (v : Qc) :
  0 ≤ v → v ≤ qz 255 → uint8 v = Qfloor v ∧ (0 ≤ Qfloor v ≤ 255)%Z.
Proof.
  intros Hlow Hhigh.
  assert (0 ≤ Qfloor v ≤ 255)%Z as Hfloor.
  { split.
    - change 0%Z with (Qfloor 0). by apply Qfloor_resp_le.
    - change 255%Z with (Qfloor (this (qz 255))). by apply Qfloor_resp_le. }
  split; [| done]. unfold uint8. destruct v as [[n d] Hcanon].
  cbn [this Qnum Qden Qfloor] in *.
  assert (0 ≤ n)%Z.
  { change (0 * Z.pos d ≤ n * 1)%Z in Hlow. lia. }
  rewrite Z.quot_div_nonneg by lia. by apply Z.mod_small; lia.
Qed.






(** ** The files of comma separated values *)

(** A text without a newline in it. *)
Fixpoint one_line (text : string) : Prop :=
  match text with
  | EmptyString => True
  | String c rest => c ≠ Ascii.ascii_of_nat 10 ∧ one_line rest
  end.

Lemma one_line_app (a b : string) : one_line a → one_line b → one_line (a +:+ b).
Proof.
  induction a as [| c a IH]; [done |]. intros [Hc Ha] Hb.
  change (c ≠ Ascii.ascii_of_nat 10 ∧ one_line (a +:+ b)). auto.
Qed.

Lemma split_lines_line (line current rest : string) :
  one_line line →
  split_lines current (line +:+ (newline +:+ rest))
  = (current +:+ line) :: split_lines "" rest.
Proof.
  revert current. induction line as [| c line IH]; intros current Hline.
  - change (split_lines current (String (Ascii.ascii_of_nat 10) rest)
            = (current +:+ "") :: split_lines "" rest).
    cbn [split_lines]. by rewrite decide_True, append_empty_r.
  - destruct Hline as [Hc Hline].
    change (split_lines current (String c (line +:+ (newline +:+ rest)))
            = (current +:+ String c line) :: split_lines "" rest).
    cbn [split_lines]. rewrite decide_False by done. rewrite IH by done.
    f_equal. by rewrite append_assoc.
Qed.

Lemma one_line_pretty_N_go (x : N) (s : string) :
  one_line s → one_line (pretty_N_go x s).
Proof.
  revert s. induction (N.lt_wf_0 x) as [x _ IH]. intros s Hs.
  destruct (decide (x = 0)%N) as [-> | Hx]; [by rewrite pretty_N_go_0 |].
  rewrite pretty_N_go_step by lia. apply IH.
  - apply N.div_lt; lia.
  - split; [| done]. unfold pretty_N_char. by repeat case_match.
Qed.

Lemma one_line_pretty_Z (x : Z) : one_line (pretty x).
Proof.
  assert (∀ n : N, one_line (pretty n)) as Hnat.
  { intros n. unfold pretty, pretty_N. case_decide; [by cbn |].
    by apply one_line_pretty_N_go. }
  destruct x as [| p | p]; [by cbn | apply Hnat |].
  change (one_line ("-" +:+ pretty (Npos p))). apply one_line_app; [by cbn | apply Hnat].
Qed.

Lemma digit_char_no_newline (d : Z) :
  (0 ≤ d < 10)%Z → digit_char d ≠ Ascii.ascii_of_nat 10.
Proof.
  intros Hd. unfold digit_char.
  assert (Z.to_nat d < 10)%nat as Hn by lia. revert Hn.
  generalize (Z.to_nat d) as n. intros n Hn.
  do 10 (destruct n as [| n]; [by vm_compute |]). lia.
Qed.

Lemma one_line_fixed_digits (k : nat) (m : Z) : one_line (fixed_digits k m).
Proof.
  revert m. induction k as [| k IH]; intros m; [done |].
  cbn [fixed_digits]. apply one_line_app; [apply IH |].
  split; [| done]. apply digit_char_no_newline, Z.mod_pos_bound. lia.
Qed.

Lemma one_line_format_f (precision : nat) (x : Qc) : one_line (format_f precision x).
Proof.
  unfold format_f. repeat apply one_line_app.
  - by case_decide.
  - apply one_line_pretty_Z.
  - by cbn.
  - apply one_line_fixed_digits.
Qed.

Lemma length_bind_constant {A B} (f : A → list B) (n : nat) (l : list A) :
  (∀ x, length (f x) = n) → length (l ≫= f) = (n * length l)%nat.
Proof.
  intros Hf. induction l as [| x l IH]; [cbn; lia |].
  rewrite bind_cons, length_app, Hf, IH. cbn. lia.
Qed.

Lemma length_product (xs ys : list nat) :
  length (product xs ys) = (length xs * length ys)%nat.
Proof.
  unfold product. induction xs as [| x xs IH]; [done |].
  rewrite bind_cons, length_app, length_fmap, IH. cbn. lia.
Qed.

Section Files.

Variable to_polar : CartesianLocation → PolarLocation → PolarLocation.
Variable float_str : Qc → string.

(** The line of a cell, without the newlines that end it. *)
Definition csv_line (self : RasterBand) (time : option string) (index : nat * nat)
  : string :=
  float_str (latitude (index_to_polar to_polar self index)) +:+ ", "
  +:+ float_str (longitude (index_to_polar to_polar self index)) +:+ ", "
  +:+ format_f 20 (cell (data self) index.1 index.2)
  +:+ match time with
      | Some time => ", " +:+ time
      | None => ""
      end.

(** The lines a row gives: with a time, the row and an empty line. *)
Definition row_lines (time : option string) (row : string) : list string :=
  row :: match time with Some _ => [""] | None => [] end.

Lemma csv_row_line self time index :
  csv_row to_polar float_str self time index
  = csv_line self time index
    +:+ (newline +:+ match time with Some _ => newline | None => "" end).
Proof.
  unfold csv_row, csv_line. destruct time as [time |]; by rewrite !append_assoc.
Qed.

Lemma one_line_csv_line self time index :
  (∀ x, one_line (float_str x)) → from_option one_line True time →
  one_line (csv_line self time index).
Proof.
  intros Hfloat Htime. unfold csv_line.
  apply one_line_app; [apply Hfloat |]. apply one_line_app; [by cbn |].
  apply one_line_app; [apply Hfloat |]. apply one_line_app; [by cbn |].
  apply one_line_app; [apply one_line_format_f |].
  destruct time as [time |]; [| done]. apply one_line_app; [by cbn | done].
Qed.

Lemma csv_line_time self time index :
  ∃ body, csv_line self (Some time) index = body +:+ ", " +:+ time.
Proof. unfold csv_line. eexists. by rewrite <-!append_assoc. Qed.

Lemma splitlines_csv_rows self time indices :
  (∀ x, one_line (float_str x)) → from_option one_line True time →
  split_lines "" (csv_rows to_polar float_str self time indices)
  = (csv_line self time <$> indices) ≫= row_lines time.
Proof.
  intros Hfloat Htime. induction indices as [| index indices IH]; [done |].
  change (csv_rows to_polar float_str self time (index :: indices))
    with (csv_row to_polar float_str self time index
          +:+ csv_rows to_polar float_str self time indices).
  rewrite fmap_cons, bind_cons, csv_row_line, !append_assoc.
  rewrite split_lines_line by by apply one_line_csv_line.
  unfold row_lines at 1. destruct time as [time |].
  - change (newline +:+ csv_rows to_polar float_str self (Some time) indices)
      with ("" +:+ (newline +:+ csv_rows to_polar float_str self (Some time) indices)).
    rewrite split_lines_line by done. by rewrite IH.
  - change ("" +:+ csv_rows to_polar float_str self None indices)
      with (csv_rows to_polar float_str self None indices).
    by rewrite IH.
Qed.

(** X13.  When a band is written to a path and a second one is then
    appended to it, both calls returning, the file holds the header of the
    first call, once, then the rows of the first band and then the rows of
    the second: the text the first call leaves at the path, followed by what
    the second band writes after its header when it is written alone. *)
Theorem save_as_csv_then_append W1 H1 W2 H2 first second path time1 time2
    (fs fs1 fs2 : FileSystem) :
  rectangular W1 H1 (data first) → (0 < W1)%nat →
  rectangular W2 H2 (data second) → (0 < W2)%nat →
  save_as_csv to_polar float_str first path time1 false fs = Ok fs1 →
  save_as_csv to_polar float_str second path time2 true fs1 = Ok fs2 →
  ∃ rows1 rows2,
    fs1 !! path = Some (csv_header time1 +:+ newline +:+ rows1)
    ∧ (∀ fs0 fs0' : FileSystem,
         save_as_csv to_polar float_str second path time2 false fs0 = Ok fs0' →
         fs0' !! path = Some (csv_header time2 +:+ newline +:+ rows2))
    ∧ fs2 !! path = Some (csv_header time1 +:+ newline +:+ rows1 +:+ rows2).
Proof.
  intros Hfirst HW1 Hsecond HW2 Hwrite Happend.
  rewrite (save_as_csv_text to_polar float_str W1 H1) in Hwrite by done.
  injection Hwrite as <-.
  rewrite (save_as_csv_text to_polar float_str W2 H2) in Happend by done.
  injection Happend as <-.
  exists (csv_rows to_polar float_str first time1 (product (range W1) (range H1))),
    (csv_rows to_polar float_str second time2 (product (range W2) (range H2))).
  split; [by rewrite lookup_insert_eq, append_assoc |]. split.
  - intros fs0 fs0' Hwrite.
    rewrite (save_as_csv_text to_polar float_str W2 H2) in Hwrite by done.
    injection Hwrite as <-. by rewrite lookup_insert_eq, append_assoc.
  - rewrite !lookup_insert_eq. cbn [default]. unfold id. by rewrite !append_assoc.
Qed.

(** X14.  A call that writes without appending, and returns, replaces the
    file: the text at the path is the one every such call of the band
    leaves there, whatever the files were before, and writing the same band
    again changes nothing. *)
Theorem save_as_csv_overwrites W H self path time (fs fs' : FileSystem) :
  rectangular W H (data self) → (0 < W)%nat →
  save_as_csv to_polar float_str self path time false fs = Ok fs' →
  (∀ fs0 fs0' : FileSystem,
     save_as_csv to_polar float_str self path time false fs0 = Ok fs0' →
     fs0' !! path = fs' !! path)
  ∧ (∀ fs'' : FileSystem,
       save_as_csv to_polar float_str self path time false fs' = Ok fs'' →
       fs'' = fs').
Proof.
  intros Hrect HW Hwrite.
  rewrite (save_as_csv_text to_polar float_str W H) in Hwrite by done.
  injection Hwrite as <-. split.
  - intros fs0 fs0' Hwrite.
    rewrite (save_as_csv_text to_polar float_str W H) in Hwrite by done.
    injection Hwrite as <-. by rewrite !lookup_insert_eq.
  - intros fs'' Hwrite.
    rewrite (save_as_csv_text to_polar float_str W H) in Hwrite by done.
    injection Hwrite as <-. by rewrite insert_insert_eq.
Qed.

(** X15.  When neither the printed coordinates nor the time hold a
    newline, the file a returning call writes for a W x H band, without
    appending, reads, cut at its newlines: the header, and then for each of
    the W * H cells its row, which holds no newline; with a time, every row
    ends with the time and is followed by an empty line.  The file has
    1 + W * H lines without a time and 1 + 2 * W * H lines with one. *)
Theorem save_as_csv_lines W H self path time (fs fs' : FileSystem) :
  (∀ x, one_line (float_str x)) → from_option one_line True time →
  rectangular W H (data self) → (0 < W)%nat →
  save_as_csv to_polar float_str self path time false fs = Ok fs' →
  ∃ text rows,
    fs' !! path = Some text
    ∧ length rows = (W * H)%nat
    ∧ Forall one_line rows
    ∧ (∀ stamp, time = Some stamp →
         Forall (λ row, ∃ body, row = body +:+ ", " +:+ stamp) rows)
    ∧ split_lines "" text = csv_header time :: (rows ≫= row_lines time)
    ∧ length (split_lines "" text)
      = (1 + (match time with Some _ => 2 | None => 1 end) * (W * H))%nat.
Proof.
  intros Hfloat Htime Hrect HW Hwrite.
  rewrite (save_as_csv_text to_polar float_str W H) in Hwrite by done.
  injection Hwrite as <-.
  eexists _, (csv_line self time <$> product (range W) (range H)).
  split; [by rewrite lookup_insert_eq |].
  assert (length (csv_line self time <$> product (range W) (range H)) = (W * H)%nat)
    as Hlength.
  { unfold range. by rewrite length_fmap, length_product, !length_seq. }
  split; [done |]. split.
  { apply Forall_fmap, Forall_forall. intros index _. by apply one_line_csv_line. }
  split.
  { intros stamp ->. apply Forall_fmap, Forall_forall. intros index _.
    apply csv_line_time. }
  assert (split_lines ""
            ((csv_header time +:+ newline)
             +:+ csv_rows to_polar float_str self time (product (range W) (range H)))
          = csv_header time
            :: ((csv_line self time <$> product (range W) (range H)) ≫= row_lines time))
    as Hlines.
  { rewrite append_assoc, split_lines_line.
    - by rewrite splitlines_csv_rows.
    - destruct time; cbn; repeat split; done. }
  split; [exact Hlines |]. rewrite Hlines. cbn [length]. f_equal.
  rewrite (length_bind_constant _ (match time with Some _ => 2 | None => 1 end)%nat).
  - by rewrite Hlength.
  - intros row. unfold row_lines. by destruct time.
Qed.

End Files.

Lemma one_line_fraction_str (x : Qc) : one_line (fraction_str x).
Proof.
  unfold fraction_str. apply one_line_app; [apply one_line_pretty_Z |].
  apply one_line_app; [by cbn | apply one_line_pretty_Z].
Qed.

(** The file the band over [grid_3x3] leaves at a path, written without a
    time into an empty file system. *)
Definition written_3x3 : FileSystem :=
  <["raster.csv" :=
      (csv_header None +:+ newline)
      +:+ csv_rows planar_to_polar fraction_str (band_10m grid_3x3) None
            (product (range 3) (range 3))]> ∅.

Lemma written_3x3_ok :
  save_as_csv planar_to_polar fraction_str (band_10m grid_3x3) "raster.csv" None false ∅
  = Ok written_3x3.
Proof.
  apply (save_as_csv_text planar_to_polar fraction_str 3 3);
    [by split; [| repeat constructor] | lia].
Qed.

(** The same file after the band over [grid_columns] was appended, with a
    time. *)
Definition appended_2x2 : FileSystem :=
  <["raster.csv" :=
      default "" (written_3x3 !! "raster.csv")
      +:+ csv_rows planar_to_polar fraction_str (band_10m grid_columns)
            (Some "2024-01-01T00:00Z") (product (range 2) (range 2))]> written_3x3.

Lemma appended_2x2_ok :
  save_as_csv planar_to_polar fraction_str (band_10m grid_columns) "raster.csv"
    (Some "2024-01-01T00:00Z") true written_3x3
  = Ok appended_2x2.
Proof.
  apply (save_as_csv_text planar_to_polar fraction_str 2 2);
    [by split; [| repeat constructor] | lia].
Qed.

Lemma save_as_csv_then_append_3x3 :
  ∃ rows1 rows2,
    written_3x3 !! "raster.csv" = Some (csv_header None +:+ newline +:+ rows1)
    ∧ (∀ fs0 fs0' : FileSystem,
         save_as_csv planar_to_polar fraction_str (band_10m grid_columns) "raster.csv"
           (Some "2024-01-01T00:00Z") false fs0 = Ok fs0' →
         fs0' !! "raster.csv"
         = Some (csv_header (Some "2024-01-01T00:00Z") +:+ newline +:+ rows2))
    ∧ appended_2x2 !! "raster.csv"
      = Some (csv_header None +:+ newline +:+ rows1 +:+ rows2).
Proof.
  apply (save_as_csv_then_append planar_to_polar fraction_str 3 3 2 2
           (band_10m grid_3x3) (band_10m grid_columns) "raster.csv"
           None (Some "2024-01-01T00:00Z") ∅ written_3x3 appended_2x2).
  - by split; [| repeat constructor].
  - lia.
  - by split; [| repeat constructor].
  - lia.
  - apply written_3x3_ok.
  - apply appended_2x2_ok.
Defined.

Lemma save_as_csv_overwrites_3x3 :
  (∀ fs0 fs0' : FileSystem,
     save_as_csv planar_to_polar fraction_str (band_10m grid_3x3) "raster.csv"
       None false fs0 = Ok fs0' →
     fs0' !! "raster.csv" = written_3x3 !! "raster.csv")
  ∧ (∀ fs'' : FileSystem,
       save_as_csv planar_to_polar fraction_str (band_10m grid_3x3) "raster.csv"
         None false written_3x3 = Ok fs'' →
       fs'' = written_3x3).
Proof.
  apply (save_as_csv_overwrites planar_to_polar fraction_str 3 3 (band_10m grid_3x3)
           "raster.csv" None ∅ written_3x3).
  - by split; [| repeat constructor].
  - lia.
  - apply written_3x3_ok.
Defined.

(** The file of the band over [grid_columns], written with a time. *)
Definition written_2x2 : FileSystem :=
  <["raster.csv" :=
      (csv_header (Some "2024-01-01T00:00Z") +:+ newline)
      +:+ csv_rows planar_to_polar fraction_str (band_10m grid_columns)
            (Some "2024-01-01T00:00Z") (product (range 2) (range 2))]> ∅.

Lemma written_2x2_ok :
  save_as_csv planar_to_polar fraction_str (band_10m grid_columns) "raster.csv"
    (Some "2024-01-01T00:00Z") false ∅
  = Ok written_2x2.
Proof.
  apply (save_as_csv_text planar_to_polar fraction_str 2 2);
    [by split; [| repeat constructor] | lia].
Qed.

Lemma save_as_csv_lines_2x2 :
  ∃ text rows,
    written_2x2 !! "raster.csv" = Some text
    ∧ length rows = (2 * 2)%nat
    ∧ Forall one_line rows
    ∧ (∀ stamp, Some "2024-01-01T00:00Z" = Some stamp →
         Forall (λ row, ∃ body, row = body +:+ ", " +:+ stamp) rows)
    ∧ split_lines "" text
      = csv_header (Some "2024-01-01T00:00Z")
        :: (rows ≫= row_lines (Some "2024-01-01T00:00Z"))
    ∧ length (split_lines "" text) = (1 + 2 * (2 * 2))%nat.
Proof.
  apply (save_as_csv_lines planar_to_polar fraction_str 2 2 (band_10m grid_columns)
           "raster.csv" (Some "2024-01-01T00:00Z") ∅ written_2x2).
  - apply one_line_fraction_str.
  - cbn. repeat split; done.
  - by split; [| repeat constructor].
  - lia.
  - apply written_2x2_ok.
Defined.

(** ** The sum of the cells under a split *)

(** The sum of the cells of a grid. *)
Definition total (a : ndarray) : Qc := foldr Qcplus 0 (concat a).

Lemma foldr_plus_app (l k : list Qc) :
  foldr Qcplus 0 (l ++ k) = foldr Qcplus 0 l + foldr Qcplus 0 k.
Proof. induction l as [| x l IH]; cbn; [ring | rewrite IH; ring]. Qed.

Lemma total_app (a b : ndarray) : total (a ++ b) = total a + total b.
Proof. unfold total. by rewrite concat_app, foldr_plus_app. Qed.

Lemma total_take_drop (n : nat) (a : ndarray) :
  total (take n <$> a) + total (drop n <$> a) = total a.
Proof.
  induction a as [| row a IH]; [by cbn |].
  rewrite !fmap_cons.
  change (total (take n row :: (take n <$> a)))
    with (foldr Qcplus 0 (take n row ++ concat (take n <$> a))).
  change (total (drop n row :: (drop n <$> a)))
    with (foldr Qcplus 0 (drop n row ++ concat (drop n <$> a))).
  change (total (row :: a)) with (foldr Qcplus 0 (row ++ concat a)).
  rewrite !foldr_plus_app. fold (total (take n <$> a)) (total (drop n <$> a)) (total a).
  rewrite <-IH. rewrite <-(take_drop n row) at 3. rewrite foldr_plus_app. ring.
Qed.

Section Total.

Variable to_polar : CartesianLocation → PolarLocation → PolarLocation.

(** X16.  Splitting conserves the sum of the cells: the sums over the
    grids of the four quadrants add up to the sum over the grid of the
    parent, so that no probability mass of a rasterized mixture is lost or
    counted twice. *)
Theorem split_conserves_total W H self :
  rectangular W H (data self) → (1 < W)%nat → (1 < H)%nat →
  ∃ q00 q01 q10 q11,
    split to_polar self = Ok (Quadrants [[q00; q01]; [q10; q11]])
    ∧ total (data q00) + total (data q01) + total (data q10) + total (data q11)
      = total (data self).
Proof.
  intros Hrect HW HH.
  destruct (split_quadrants to_polar W H self Hrect HW HH) as
    (lw & rw & ow & oe & th & bh & on & os & _ & _ & Hsplit).
  do 4 eexists. split; [exact Hsplit |]. cbn [constructed data].
  unfold slice2, slice.
  rewrite <-(take_drop (W / 2) (data self)) at 5.
  rewrite total_app, <-(total_take_drop (H / 2) (take (W / 2) (data self))),
    <-(total_take_drop (H / 2) (drop (W / 2) (data self))).
  rewrite Qcplus_assoc. reflexivity.
Qed.

End Total.

Lemma split_conserves_total_3x3 :
  ∃ q00 q01 q10 q11,
    split planar_to_polar (band_10m grid_3x3) = Ok (Quadrants [[q00; q01]; [q10; q11]])
    ∧ total (data q00) + total (data q01) + total (data q10) + total (data q11)
      = total (data (band_10m grid_3x3)).
Proof.
  apply (split_conserves_total planar_to_polar 3 3 (band_10m grid_3x3)).
  - by split; [| repeat constructor].
  - lia.
  - lia.
Defined.
(** * The operations on binary64 doubles

    Python's [float] and numpy's [float64] are the binary64 numbers of
    IEEE 754, and every operation on them rounds its exact result to the
    nearest double, ties to even.  The statements over [Qc] do not see this
    rounding.  The module embeds the constructor, the conversions, [split]
    and [to_image] once more, on the primitive doubles, whose operations are
    those of the processor that runs Python; its definitions are those of
    the embedding above with the operations on doubles in the place of the
    exact ones. *)

Module Binary64.

Local Open Scope float_scope.
#[local] Set Warnings "-inexact-float".

(** ** Numbers *)

(** [float(n)] for an [int] [n >= 0].  The sum is exact, as the conversion
    is, as long as [n] is at most 2^53. *)
Fixpoint of_nat (n : nat) : float :=
  match n with
  | O => 0
  | S n => of_nat n + 1
  end.

(** The exact value of a finite double. *)
Definition exact (x : float) : option Q :=
  match Prim2SF x with
  | S754_zero _ => Some 0%Q
  | S754_finite s m e =>
      Some ((if s then - 1 else 1) * (inject_Z (Zpos m) * 2 ^ e))%Q
  | S754_infinity _ | S754_nan => None
  end.

(** [a / n] for a float [a] and an [int] [n]. *)
Definition py_div (a : float) (n : nat) : result float :=
  if decide (n = 0%nat) then Raise ZeroDivisionError else Ok (a / of_nat n).

(** [x % 2] for a float [x], as CPython's [float_rem] computes it: the
    remainder [fmod(x, 2)], which is exact and has the sign of [x], is taken
    first; 2 is added to a negative remainder, in doubles, and a remainder
    of zero becomes +0.  For a double m * 2^e with e <= 0 the remainder of
    the absolute value is (m mod 2^(1 - e)) * 2^e; with e > 0 the double is
    an even integer.  The remainder of an infinity or of a NaN is a NaN. *)
Definition py_mod2 (x : float) : float :=
  match Prim2SF x with
  | S754_zero _ => 0
  | S754_infinity _ | S754_nan => nan
  | S754_finite s m e =>
      let r := if (0 <? e)%Z then 0%Z else (Zpos m mod 2 ^ (1 - e))%Z in
      match r with
      | Zpos r =>
          let fmod := SF2Prim (S754_finite s r e) in
          if s then fmod + 2 else fmod
      | _ => 0
      end
  end.

(** ** Locations *)

Record CartesianLocation : Set := mkCartesian { east : float; north : float }.
Record PolarLocation : Set := mkPolar { latitude : float; longitude : float }.

(** ** Arrays *)

Abbreviation ndarray := (list (list float)).

Definition shape0 (a : ndarray) : nat := length a.
Definition shape1 (a : ndarray) : nat :=
  match a with
  | [] => 0
  | r :: _ => length r
  end.

(** [numpy.zeros((W, H))] *)
Definition zeros (resolution : nat * nat) : ndarray :=
  replicate resolution.1 (replicate resolution.2 0).

(** [self.data[x0:x1, y0:y1]] *)
Definition slice2 (a : ndarray) (x0 x1 y0 y1 : option nat) : ndarray :=
  slice y0 y1 <$> slice x0 x1 a.

(** Column [j] of an array, [a[:, j]], and [a.transpose()]. *)
Definition column (a : ndarray) (j : nat) : list float :=
  (λ row : list float, default 0 (row !! j)) <$> a.
Definition transpose (a : ndarray) : ndarray := column a <$> range (shape1 a).

(** ** The raster band *)

Record RasterBand : Type := mkRasterBand {
  data : ndarray;
  origin : PolarLocation;
  width : float;
  height : float;
  pixel_width : float;
  pixel_height : float;
  center_x : float;
  center_y : float;
  cartesian_locations : gmap (nat * nat) CartesianLocation;
  polar_locations : gmap (nat * nat) PolarLocation
}.

Inductive split_result : Type :=
  | Unsplit (self : RasterBand)
  | Quadrants (quadrants : list (list RasterBand)).

Section RasterBand.

Variable to_polar : CartesianLocation → PolarLocation → PolarLocation.

(** [RasterBand.index_to_cartesian] *)
Definition index_to_cartesian (self : RasterBand) (index : nat * nat)
  : CartesianLocation :=
  {| east := pixel_width self / 2 + of_nat index.1 * pixel_width self - center_x self;
     north := - (pixel_height self / 2 + of_nat index.2 * pixel_height self)
              + center_y self |}.

(** [RasterBand.index_to_polar] *)
Definition index_to_polar (self : RasterBand) (index : nat * nat) : PolarLocation :=
  to_polar (index_to_cartesian self index) (origin self).

(** [RasterBand.__init__] *)
Definition __init__ (data : ndarray) (origin : PolarLocation) (width height : float)
  : result RasterBand :=
  pixel_width ← py_div width (shape0 data);
  pixel_height ← py_div height (shape1 data);
  let center_x := width / 2 in
  let center_y := height / 2 in
  let indices := product (range (shape0 data)) (range (shape1 data)) in
  let self := mkRasterBand data origin width height pixel_width pixel_height
                center_x center_y ∅ ∅ in
  let self := mkRasterBand data origin width height pixel_width pixel_height
                center_x center_y
                (dict_comprehension (index_to_cartesian self) indices) ∅ in
  let self := mkRasterBand data origin width height pixel_width pixel_height
                center_x center_y
                (cartesian_locations self)
                (dict_comprehension (index_to_polar self) indices) in
  Ok self.

(** [RasterBand.split] *)
Definition split (self : RasterBand) : result split_result :=
  if decide (shape0 (data self) = 1 ∨ shape1 (data self) = 1)%nat
  then Ok (Unsplit self)
  else
    let data_split_x := (shape0 (data self) / 2)%nat in
    let data_split_y := (shape1 (data self) / 2)%nat in
    let '(left_width, right_width, origin_west, origin_east) :=
      if negb (py_mod2 (width self) =? 0)
      then ((width self - pixel_width self) / 2,
            (width self + pixel_width self) / 2,
            - (width self + pixel_width self) / 4,
            (width self - pixel_width self) / 4)
      else (width self / 2, width self / 2,
            - (width self / 4), width self / 4) in
    let '(top_height, bottom_height, origin_north, origin_south) :=
      if negb (py_mod2 (height self) =? 0)
      then ((height self - pixel_height self) / 2,
            (height self + pixel_height self) / 2,
            - (height self - pixel_height self) / 4,
            (height self + pixel_height self) / 4)
      else (height self / 2, height self / 2,
            - (height self / 4), height self / 4) in
    q00 ← __init__ (slice2 (data self) None (Some data_split_x) None (Some data_split_y))
             (to_polar (mkCartesian origin_west origin_south) (origin self))
             left_width top_height;
    q01 ← __init__ (slice2 (data self) None (Some data_split_x) (Some data_split_y) None)
             (to_polar (mkCartesian origin_west origin_north) (origin self))
             left_width bottom_height;
    q10 ← __init__ (slice2 (data self) (Some data_split_x) None None (Some data_split_y))
             (to_polar (mkCartesian origin_east origin_south) (origin self))
             right_width top_height;
    q11 ← __init__ (slice2 (data self) (Some data_split_x) None (Some data_split_y) None)
             (to_polar (mkCartesian origin_east origin_north) (origin self))
             right_width bottom_height;
    Ok (Quadrants [[q00; q01]; [q10; q11]]).

End RasterBand.

(** ** Scaling and images *)

(** [numpy.fmin] and [numpy.fmax], which pass over a NaN, and their
    reductions along a column, [numpy.nanmin] and [numpy.nanmax]. *)
Definition fmin (x y : float) : float :=
  if is_nan y then x else if is_nan x then y else if x <=? y then x else y.
Definition fmax (x y : float) : float :=
  if is_nan y then x else if is_nan x then y else if x <=? y then y else x.
Definition nanmin (l : list float) : float := foldl fmin (default nan (head l)) (tail l).
Definition nanmax (l : list float) : float := foldl fmax (default nan (head l)) (tail l).

(** [numpy.finfo(numpy.float64).eps] *)
Definition eps : float := 0x1p-52.

(** scikit-learn's [_handle_zeros_in_scale] *)
Definition handle_zeros_in_scale (r : float) : float :=
  if r <? 10 * eps then 1 else r.

(** [MinMaxScaler(feature_range=(lo, hi)).fit_transform(X)]: the input is
    refused with [ValueError] when it has no sample or no feature, or holds
    an infinity (a NaN is let through, as a missing value); the extremes,
    [scale_] and [min_] are computed per column, and the result is
    [X * scale_ + min_]. *)
Definition MinMaxScaler_fit_transform (feature_range : float * float) (X : ndarray)
  : result ndarray :=
  if decide (shape0 X = 0 ∨ shape1 X = 0)%nat then Raise ValueError
  else if existsb is_infinity (concat X) then Raise ValueError
  else
    let features := range (shape1 X) in
    let data_min := (λ j, nanmin (column X j)) <$> features in
    let data_max := (λ j, nanmax (column X j)) <$> features in
    let data_range := zip_with PrimFloat.sub data_max data_min in
    let scale_ :=
      (λ r, (feature_range.2 - feature_range.1) / handle_zeros_in_scale r)
        <$> data_range in
    let min_ := zip_with (λ m s, feature_range.1 - m * s) data_min scale_ in
    Ok ((λ row : list float,
           zip_with PrimFloat.add (zip_with PrimFloat.mul row scale_) min_) <$> X).

(** [numpy.uint8(x)] for a finite [x]: the fraction is dropped (towards
    zero) and the integer is kept modulo 256.  numpy leaves the conversion
    of an infinity or a NaN unspecified; it reads as 0 here. *)
Definition uint8 (x : float) : Z :=
  match exact x with
  | Some q => (Z.quot (Qnum q) (Zpos (Qden q))) mod 256
  | None => 0
  end.

(** [RasterBand.to_image] *)
Definition to_image (self : RasterBand) : result Image :=
  image_data ← MinMaxScaler_fit_transform (0, 255) (data self);
  Ok (fromarray ((λ row : list float, uint8 <$> row) <$> transpose image_data)).

(** ** Concrete bands *)

(** A flat conversion, one degree per metre; it stands for no geodesy. *)
Definition planar_to_polar (location : CartesianLocation) (origin : PolarLocation)
  : PolarLocation :=
  {| latitude := latitude origin + north location;
     longitude := longitude origin + east location |}.

Definition equator : PolarLocation := {| latitude := 0; longitude := 0 |}.

(** Whether the exact values of two doubles add up to the exact value of a
    third. *)
Definition adds_up_exactly (x y z : float) : bool :=
  match exact x, exact y, exact z with
  | Some x, Some y, Some z => Qeq_bool (x + y) z
  | _, _, _ => false
  end.

End Binary64.

(** ** The claims on doubles *)

Local Open Scope float_scope.
#[local] Set Warnings "-inexact-float".

(** The remainder of the division by 2, at some doubles. *)
Example py_mod2_examples :
  Binary64.py_mod2 27.7 = 1.6999999999999993
  ∧ Binary64.py_mod2 10 = 0
  ∧ Binary64.py_mod2 3 = 1
  ∧ Binary64.py_mod2 (-1.5) = 0.5
  ∧ Binary64.py_mod2 (-1e-20) = 2.
Proof. repeat split; vm_compute; reflexivity. Qed.


(** On doubles too, the grid [[0, 10], [1, 20]] gives the image
    [[0, 255], [0, 255]], each column of the data scaled by itself. *)
Example to_image_columns_on_doubles :
  (self ← Binary64.__init__ Binary64.planar_to_polar [[0; 10]; [1; 20]]
            Binary64.equator 10 10;
   Binary64.to_image self)
  = Ok [[0; 255]; [0; 255]]%Z.
Proof. vm_compute. reflexivity. Qed.

(** The maximum of a column need not give 255: in the column [1.1, 3.3] the
    spread is 2.1999999999999997 and the scaled maximum 254.99999999999997,
    which [uint8] cuts to 254. *)
Example to_image_maximum_on_doubles :
  (self ← Binary64.__init__ Binary64.planar_to_polar [[1.1]; [3.3]]
            Binary64.equator 10 10;
   Binary64.to_image self)
  = Ok [[0; 254]]%Z.
Proof. vm_compute. reflexivity. Qed.

(** A column whose spread is below ten machine epsilons is scaled by 255 and
    not by 255 over the spread: the column [0, 2^-50] gives two pixels 0, in
    doubles and in the exact reading alike. *)
Example to_image_small_spread :
  (self ← Binary64.__init__ Binary64.planar_to_polar [[0]; [0x1p-50]]
            Binary64.equator 10 10;
   Binary64.to_image self)
  = Ok [[0; 0]]%Z
  ∧ to_image (band_10m [[0%Qc]; [Q2Qc (1 # 2 ^ 50)]]) = Ok [[0; 0]]%Z.
Proof. split; vm_compute; reflexivity. Qed.
